(** * The DBO explorer's ontology wrapper: field lists and match scores

    A shallow embedding of [tools/explorer/lib/ontology_wrapper.py] and of
    the functions of [tools/explorer/lib/parse_input.py] that feed it.

    - Python [float] is IEEE 754 binary64; it is modelled bit for bit with
      the Standard Library's [spec_float] operations at precision 53 and
      maximal exponent 1024, so every rounding of the score is the one the
      interpreter performs.
    - Python [set]/[frozenset] are stdpp's [gset]; [dict]s are association
      lists in insertion order, the order [dict.values()] iterates in.
    - Exceptions are values of [exn], carried by the [result] monad.
    - The console of the interactive functions is an explicit state: the
      lines still to be read and the texts written so far.  The built-ins
      [int], [ast.literal_eval], [termcolor.colored] and the [__str__]
      methods of the model classes are parameters.
    - [str] is a sequence of bytes (UTF-8); comparing byte by byte agrees
      with Python's comparison by code point.  [str.upper] follows the
      Unicode tables of the interpreter: it is the parameter [upper] of the
      functions that call it, and everything proved holds for whatever it
      does to a text.  The examples run on ASCII text, with [upper_ascii]. *)

From Stdlib Require Import ZArith Lia SpecFloat Sorted Ascii.
From stdpp Require Import base gmap strings list sets pretty.

Local Open Scope Z_scope.
#[local] Set Warnings "-clear-no-such-hyp".

(** ** Python run-time values *)

Inductive exn : Type :=
| ValueError (msg : string)
| TypeError (msg : string)
| Exception (msg : string)
| RuntimeError (msg : string)
| ZeroDivisionError (msg : string)
| OverflowError (msg : string).

Inductive result (A : Type) : Type :=
| Ok (a : A)
| Raise (e : exn).

Arguments Ok {A} a.
Arguments Raise {A} e.

Global Instance result_ret : MRet result := fun A a => Ok a.

Global Instance result_bind : MBind result := fun A B f m =>
  match m with
  | Ok a => f a
  | Raise e => Raise e
  end.

Global Instance result_fmap : FMap result := fun A B f m =>
  match m with
  | Ok a => Ok (f a)
  | Raise e => Raise e
  end.

(** The line feed of the ['\n'] escapes in the error messages. *)
Definition nl : string := String "010"%char EmptyString.

(** What [str.upper] does to a text of ASCII characters: the letters a to z
    become A to Z, every other character stays.  The examples give it to
    the functions that take [str.upper] as their parameter [upper]. *)
Definition ascii_upper (c : ascii) : ascii :=
  let n := N_of_ascii c in
  if ((97 <=? n) && (n <=? 122))%N then ascii_of_N (n - 32) else c.

Fixpoint upper_ascii (s : string) : string :=
  match s with
  | EmptyString => EmptyString
  | String c s' => String (ascii_upper c) (upper_ascii s')
  end.

(** [len] of a set. *)
Definition len `{Countable A} (X : gset A) : Z := Z.of_nat (size X).

(** [dict.values()], in insertion order. *)
Definition dict_values {K V : Type} (d : list (K * V)) : list V := d.*2.

(** [dict.get(k)]: the value stored under the key, if any. *)
Fixpoint dict_get {V : Type} (k : string) (d : list (string * V)) : option V :=
  match d with
  | [] => None
  | (k', v) :: d' => if String.eqb k k' then Some v else dict_get k d'
  end.

(** [sorted(l, key=key, reverse=False)].  Python's sort is stable and only
    asks [<] of the keys; on keys that [<] orders totally its result is the
    one stable arrangement, which insertion from the right computes: an
    element goes in front of the first element whose key is not smaller. *)
Fixpoint insert_by {A K : Type} (lt : K -> K -> bool) (key : A -> K)
    (x : A) (l : list A) : list A :=
  match l with
  | [] => [x]
  | y :: l' =>
      if lt (key y) (key x) then y :: insert_by lt key x l' else x :: y :: l'
  end.

Definition sorted {A K : Type} (lt : K -> K -> bool) (key : A -> K)
    (l : list A) : list A :=
  foldr (insert_by lt key) [] l.

(** ** binary64 arithmetic *)

Definition prec : Z := 53.
Definition emax : Z := 1024.

(** The float literals of the module. *)
Definition float_one : spec_float := S754_finite false 4503599627370496 (-52).
Definition float_two : spec_float := S754_finite false 4503599627370496 (-51).
Definition float_neg_half : spec_float :=
  S754_finite true 4503599627370496 (-53).

(** An integer as an exact binary number: its magnitude with exponent 0,
    not yet rounded to 53 bits. *)
Definition int_to_binary (z : Z) : spec_float :=
  match z with
  | Z0 => S754_zero false
  | Zpos p => S754_finite false p 0
  | Zneg p => S754_finite true p 0
  end.

(** [a / b] on two [int]s.  CPython returns the correctly rounded quotient
    of the two integers, raises [ZeroDivisionError] for a zero divisor and
    [OverflowError] when the quotient is beyond the floats.  [SFdiv] forms
    the integer quotient with enough bits and a sticky position and rounds
    it once, for mantissas of any length. *)
Definition int_truediv (a b : Z) : result spec_float :=
  if b =? 0 then Raise (ZeroDivisionError "division by zero")
  else
    match SFdiv prec emax (int_to_binary a) (int_to_binary b) with
    | S754_infinity _ =>
        Raise (OverflowError "integer division result too large for a float")
    | q => Ok q
    end.

(** [x + y] on two floats. *)
Definition float_add (x y : spec_float) : spec_float := SFadd prec emax x y.

(** [x / y] on two floats: only a zero divisor raises. *)
Definition float_truediv (x y : spec_float) : result spec_float :=
  match y with
  | S754_zero _ => Raise (ZeroDivisionError "float division by zero")
  | _ => Ok (SFdiv prec emax x y)
  end.

(** [x < y], [x <= y] and [x > y] on two floats. *)
Definition float_lt (x y : spec_float) : bool := SFltb x y.
Definition float_le (x y : spec_float) : bool := SFleb x y.
Definition float_gt (x y : spec_float) : bool := SFltb y x.

(** Being a zero or a finite number. *)
Definition is_finite (x : spec_float) : Prop :=
  match x with
  | S754_zero _ | S754_finite _ _ _ => True
  | _ => False
  end.

(** A zero, or a finite well-formed float of magnitude at most [2 ^ k]. *)
Definition pow_bounded (k : Z) (x : spec_float) : Prop :=
  match x with
  | S754_zero _ => True
  | S754_finite _ m e =>
      bounded prec emax m e = true /\ e <= k /\ Z.pos m <= 2 ^ (k - e)
  | _ => False
  end.

(** What [n] right shifts make of a shift record: the mantissa is divided
    by [2 ^ n], and a record that was exact and loses no bit stays exact. *)
Definition shr_rel (n : Z) (x y : shr_record) : Prop :=
  0 <= shr_m y /\ shr_m y = shr_m x / 2 ^ n /\
  (shr_r x = false -> shr_s x = false -> shr_m x mod 2 ^ n = 0 ->
   shr_r y = false /\ shr_s y = false).

(** The place of a finite float in the order [SFcompare] decides: sign
    class first, then exponent, then mantissa, the last two reversed for
    negative floats. *)
Definition float_rank (x : spec_float) : Z * Z * Z :=
  match x with
  | S754_finite false m e => (1, e, Z.pos m)
  | S754_finite true m e => (-1, - e, - Z.pos m)
  | _ => (0, 0, 0)
  end.

Definition rank_le (a b : Z * Z * Z) : Prop :=
  let '(s1, e1, m1) := a in
  let '(s2, e2, m2) := b in
  s1 < s2 \/ (s1 = s2 /\ (e1 < e2 \/ (e1 = e2 /\ m1 <= m2))).

(** ** [lib/model.py] *)

(** Modelled from the spec: [StandardField] of [lib/model.py], which is not
    among the sources.  A field identity is the pair of a namespace (empty
    for the global one) and a local name; equality and hashing are by the
    pair. *)
Record StandardField : Type := new_StandardField {
  GetNamespaceName : string;
  GetStandardFieldName : string
}.

(** Modelled from the spec: [EntityTypeField] of [lib/model.py], a field
    identity with its optionality and increment. *)
Record EntityTypeField : Type := Build_EntityTypeField {
  field_identity :> StandardField;
  IsOptional : bool;
  GetIncrement : string
}.

(** The constructor call [EntityTypeField(namespace, name, optional,
    increment)]. *)
Definition new_EntityTypeField (namespace_name standard_field_name : string)
    (is_optional : bool) (increment : string) : EntityTypeField :=
  Build_EntityTypeField
    (new_StandardField namespace_name standard_field_name)
    is_optional increment.

(** Modelled from the spec: [model.StandardizeField] projects a field
    definition to its identity, discarding optionality and increment. *)
Definition StandardizeField (field : EntityTypeField) : StandardField :=
  new_StandardField (GetNamespaceName field) (GetStandardFieldName field).

Global Instance StandardField_eq_dec : EqDecision StandardField.
Proof. solve_decision. Defined.

Global Instance StandardField_countable : Countable StandardField.
Proof.
  refine (inj_countable' (fun f => (GetNamespaceName f, GetStandardFieldName f))
            (fun p => new_StandardField p.1 p.2) _).
  by intros [].
Defined.

Global Instance EntityTypeField_eq_dec : EqDecision EntityTypeField.
Proof. solve_decision. Defined.

Global Instance EntityTypeField_countable : Countable EntityTypeField.
Proof.
  refine (inj_countable'
            (fun f => (field_identity f, IsOptional f, GetIncrement f))
            (fun p => Build_EntityTypeField p.1.1 p.1.2 p.2) _).
  by intros [].
Defined.

(** ** The ontology universe *)

(** Modelled from the spec: the classes of [yamlformat.validator], which are
    not among the sources, with the attributes the wrapper reads. *)

Module FieldParts.
Record t : Type := Build {
  namespace : string;
  field : string;
  increment : string
}.
End FieldParts.

Module OptWrapper.
Record t : Type := Build {
  field : FieldParts.t;
  optional : bool
}.
End OptWrapper.

Record EntityType : Type := Build_EntityType {
  typename : string;
  is_abstract : bool;
  inherited_fields_expanded : bool;
  (* the dictionary of qualified field name to field, parents' fields
     included once inheritance is expanded *)
  _all_fields : list (string * OptWrapper.t);
  unqualified_parent_names : list string
}.

(** The failure of a query for the fields of a type that was not expanded.
    The specification demands the failure and does not name the exception;
    what is proved of it is that it is raised. *)
Definition type_not_expanded : exn := RuntimeError "Type has not been expanded".

(** Modelled from the spec: [GetAllFields()] answers with the flattened
    dictionary of the type; of a type whose inherited fields have not been
    expanded the query must fail, never return a partial field set
    (sections 3 and 6). *)
Definition GetAllFields (entity_type : EntityType)
    : result (list (string * OptWrapper.t)) :=
  if inherited_fields_expanded entity_type
  then Ok (_all_fields entity_type)
  else Raise type_not_expanded.

Record TypeNamespace : Type := Build_TypeNamespace {
  namespace : string;
  valid_types_map : list (string * EntityType)
}.

Record EntityTypeUniverse : Type := Build_EntityTypeUniverse {
  type_namespaces_map : list (string * TypeNamespace)
}.

Record FieldUniverse : Type := Build_FieldUniverse {
  IsFieldDefined : string -> string -> bool
}.

Record ConfigUniverse : Type := Build_ConfigUniverse {
  entity_type_universe : EntityTypeUniverse;
  field_universe : FieldUniverse
}.

(** Modelled from the spec: [ResolveType] finds the namespace, then the type
    name in it. *)
Definition GetEntityType (etu : EntityTypeUniverse)
    (namespace_name type_name : string) : option EntityType :=
  match dict_get namespace_name (type_namespaces_map etu) with
  | None => None
  | Some tns => dict_get type_name (valid_types_map tns)
  end.

Definition GetEntityTypeNamespaces (u : ConfigUniverse) : list TypeNamespace :=
  dict_values (type_namespaces_map (entity_type_universe u)).

(** Modelled from the spec: a [Match] ties the concrete field list to one
    type and the computed score. *)
Record Match : Type := new_Match {
  GetFieldList : list StandardField;
  GetMatchEntityType : EntityType;
  GetMatchScore : spec_float
}.

(** ** [lib/ontology_wrapper.py] *)

Record OntologyWrapper : Type := Build_OntologyWrapper {
  universe : ConfigUniverse;
  match_score_threshold : spec_float
}.

(** [OntologyWrapper.__init__]. *)
Definition __init__ (u : ConfigUniverse) : OntologyWrapper :=
  Build_OntologyWrapper u float_neg_half.

(** The loop both [GetFieldsForTypeName] and [_CreateMatch] run over the
    [values()] of the dictionary that [entity_type.GetAllFields()] returned. *)
Definition to_entity_type_fields (all_fields : list (string * OptWrapper.t))
    : list EntityTypeField :=
  map (fun qualified_field =>
         new_EntityTypeField
           (FieldParts.namespace (OptWrapper.field qualified_field))
           (FieldParts.field (OptWrapper.field qualified_field))
           (OptWrapper.optional qualified_field)
           (FieldParts.increment (OptWrapper.field qualified_field)))
      (dict_values all_fields).

Definition undefined_global_msg (entity_type_name : string) : string :=
  nl +:+ entity_type_name +:+ " is not defined in global namespace.".

Definition undefined_in_namespace_msg (entity_type_name namespace_name : string)
    : string :=
  nl +:+ entity_type_name +:+ " is not defined in namespace: "
     +:+ namespace_name +:+ ".".

Definition not_expanded_msg : string :=
  "Inherited fields must be expanded to query fields." +:+ nl +:+
  "Run NamespaceValidator on your ConfigUniverse to expand fields.".

Definition GetFieldsForTypeName (self : OntologyWrapper)
    (namespace_name entity_type_name : string) (required_only : bool)
    : result (list EntityTypeField) :=
  match GetEntityType (entity_type_universe (universe self))
          namespace_name entity_type_name with
  | None =>
      if String.eqb namespace_name ""
      then Raise (ValueError (undefined_global_msg entity_type_name))
      else Raise (ValueError
                    (undefined_in_namespace_msg entity_type_name namespace_name))
  | Some entity_type =>
      if negb (inherited_fields_expanded entity_type)
      then Raise (Exception not_expanded_msg)
      else
        all_fields ← GetAllFields entity_type;
        let entity_type_fields := to_entity_type_fields all_fields in
        let entity_type_fields :=
          if required_only
          then List.filter (fun field => negb (IsOptional field))
                 entity_type_fields
          else entity_type_fields in
        Ok (sorted String.ltb
              (fun x : EntityTypeField => GetStandardFieldName x)
              entity_type_fields)
  end.

Definition _CalculateMatchScore (concrete_fields : gset StandardField)
    (canonical_fields : gset EntityTypeField) : result spec_float :=
  let required_canonical_fields : gset StandardField :=
    set_map StandardizeField
      (filter (fun field => IsOptional field = false) canonical_fields) in
  let standard_canonical_fields : gset StandardField :=
    set_map StandardizeField canonical_fields in
  let ma := len (concrete_fields ∩ standard_canonical_fields) in
  let mr := len (concrete_fields ∩ required_canonical_fields) in
  let tr := len required_canonical_fields in
  let c := len concrete_fields in
  let e := len (concrete_fields ∖ standard_canonical_fields) in
  let a := len (required_canonical_fields ∖ concrete_fields) in
  if c <=? 0 then Raise (ValueError "Concrete field set cannot be empty.")
  else if tr <=? 0 then
    q ← int_truediv (ma - e) c;
    float_truediv q float_two
  else
    q1 ← int_truediv (ma - e) c;
    q2 ← int_truediv (mr - a) tr;
    float_truediv (float_add q1 q2) float_two.

Definition _CreateMatch (field_list : list StandardField)
    (entity_type : EntityType) : result Match :=
  all_fields ← GetAllFields entity_type;
  let canonical_field_set : gset EntityTypeField :=
    list_to_set (to_entity_type_fields all_fields) in
  match_score ← _CalculateMatchScore (list_to_set field_list)
                  canonical_field_set;
  mret (new_Match field_list entity_type match_score).

Section str_upper.

(** The built-in [str.upper]. *)
Variable upper : string -> string.

(** The test of the first loop of [GetEntityTypesFromFields]: whether the
    type is appended to [entity_type_list].  The [or] asks [GetAllFields]
    only of a type that is not abstract, and the tag is looked at only for
    a type that has fields. *)
Definition candidate_test (general_type : option string)
    (entity_type : EntityType) : result bool :=
  skip ← (if is_abstract entity_type then Ok true
          else all_fields ← GetAllFields entity_type;
               Ok (bool_decide (all_fields = [])));
  if skip : bool then Ok false
  else
    match general_type with
    | Some g =>
        Ok (existsb (String.eqb (upper g))
              (unqualified_parent_names entity_type))
    | None => Ok true
    end.

(** The inner loop, over the types of one namespace. *)
Fixpoint append_candidates (general_type : option string)
    (types : list EntityType) (entity_type_list : list EntityType)
    : result (list EntityType) :=
  match types with
  | [] => Ok entity_type_list
  | entity_type :: types' =>
      append ← candidate_test general_type entity_type;
      append_candidates general_type types'
        (if append : bool then entity_type_list ++ [entity_type]
         else entity_type_list)
  end.

(** The outer loop, over the namespaces. *)
Fixpoint append_namespaces (general_type : option string)
    (type_namespaces_list : list TypeNamespace)
    (entity_type_list : list EntityType) : result (list EntityType) :=
  match type_namespaces_list with
  | [] => Ok entity_type_list
  | tns :: type_namespaces_list' =>
      entity_type_list' ←
        append_candidates general_type (dict_values (valid_types_map tns))
          entity_type_list;
      append_namespaces general_type type_namespaces_list' entity_type_list'
  end.

Definition GetEntityTypesFromFields (self : OntologyWrapper)
    (field_list : list StandardField) (general_type : option string)
    (best_fit : bool) : result (list Match) :=
  let type_namespaces_list := GetEntityTypeNamespaces (universe self) in
  entity_type_list ← append_namespaces general_type type_namespaces_list [];
  match_list ← mapM (_CreateMatch field_list) entity_type_list;
  let match_list_sorted := sorted float_lt GetMatchScore match_list in
  if best_fit
  then mret (List.filter
               (fun m => float_gt (GetMatchScore m) (match_score_threshold self))
               match_list_sorted)
  else mret match_list_sorted.

End str_upper.

(** ** The specification's vocabulary *)

Definition float_neg_one : spec_float :=
  S754_finite true 4503599627370496 (-52).

(** The quotient [a / c] of two counts, as a float. *)
Definition count_quotient (a c : Z) : spec_float :=
  SFdiv prec emax (int_to_binary a) (int_to_binary c).

(** [x / 2]. *)
Definition halve (x : spec_float) : spec_float := SFdiv prec emax x float_two.

(** [StdC]: every member of [C], standardized. *)
Definition StdC (C : gset EntityTypeField) : gset StandardField :=
  set_map StandardizeField C.

(** [StdR]: the required members of [C], standardized. *)
Definition StdR (C : gset EntityTypeField) : gset StandardField :=
  set_map StandardizeField (filter (fun f => IsOptional f = false) C).

(** The score as section 4.3 of the specification writes it. *)
Definition spec_score (F : gset StandardField) (C : gset EntityTypeField)
    : spec_float :=
  let ma := len (F ∩ StdC C) in
  let mr := len (F ∩ StdR C) in
  let tr := len (StdR C) in
  let c := len F in
  let e := len (F ∖ StdC C) in
  let a := len (StdR C ∖ F) in
  if tr =? 0 then halve (count_quotient (ma - e) c)
  else halve (float_add (count_quotient (ma - e) c)
                        (count_quotient (mr - a) tr)).

(** The order of the pairs (namespace, name), lexicographic. *)
Definition qualified_le (x y : StandardField) : bool :=
  String.ltb (GetNamespaceName x) (GetNamespaceName y)
  || (String.eqb (GetNamespaceName x) (GetNamespaceName y)
      && String.leb (GetStandardFieldName x) (GetStandardFieldName y)).

(** Adjacent elements of a list are in the relation [R]. *)
Definition adjacent {A : Type} (R : A -> A -> Prop) (l : list A) : Prop :=
  forall (i : nat) (x y : A),
    l !! i = Some x -> l !! S i = Some y -> R x y.

(** A tag that appears among the parent tags of a type when letter case is
    ignored: some parent tag and the tag are the same text in upper case. *)
Definition has_parent_tag_nocase (upper : string -> string) (g : string)
    (entity_type : EntityType) : Prop :=
  exists p, p ∈ unqualified_parent_names entity_type /\ upper p = upper g.

(** Every type of every namespace, in iteration order. *)
Definition all_types (u : ConfigUniverse) : list EntityType :=
  flat_map (fun tns => dict_values (valid_types_map tns))
           (GetEntityTypeNamespaces u).

(** Every type of the universe that is not abstract has its inherited
    fields expanded: [GetAllFields] answers wherever the ranking asks. *)
Definition concrete_types_expanded (u : ConfigUniverse) : bool :=
  forallb (fun et => is_abstract et || inherited_fields_expanded et)
    (all_types u).

(** What the test of the first loop answers for a type that [GetAllFields]
    answers for. *)
Definition is_candidate (upper : string -> string)
    (general_type : option string) (entity_type : EntityType) : bool :=
  if is_abstract entity_type
     || bool_decide (_all_fields entity_type = [])
  then false
  else
    match general_type with
    | Some g =>
        existsb (String.eqb (upper g)) (unqualified_parent_names entity_type)
    | None => true
    end.

(** The candidates of the ranking: the types that pass the test, in
    iteration order. *)
Definition candidate_types (upper : string -> string) (u : ConfigUniverse)
    (general_type : option string) : list EntityType :=
  flat_map (fun tns =>
              List.filter (is_candidate upper general_type)
                (dict_values (valid_types_map tns)))
           (GetEntityTypeNamespaces u).

(** A list that selects some, but not all, of the elements of another. *)
Definition strict_sublist {A : Type} (l k : list A) : Prop :=
  sublist l k /\ l <> k.

(** ** The example of the specification: namespace FACILITIES, type ROOM *)

Definition example_field (name : string) (optional : bool)
    : string * OptWrapper.t :=
  (name, OptWrapper.Build (FieldParts.Build "" name "") optional).

Definition ROOM : EntityType :=
  Build_EntityType "ROOM" false true
    [example_field "temperature" false; example_field "occupancy" false;
     example_field "humidity" true]
    ["SPACE"].

Definition example_universe_of (types : list (string * EntityType))
    : ConfigUniverse :=
  Build_ConfigUniverse
    (Build_EntityTypeUniverse
       [("FACILITIES", Build_TypeNamespace "FACILITIES" types)])
    (Build_FieldUniverse (fun _ _ => true)).

Definition example_universe : ConfigUniverse :=
  example_universe_of [("ROOM", ROOM)].

Definition ROOM_fields : gset EntityTypeField :=
  list_to_set (to_entity_type_fields (_all_fields ROOM)).

Definition temperature_occupancy : list StandardField :=
  [new_StandardField "" "temperature"; new_StandardField "" "occupancy"].

Definition temperature_pressure : list StandardField :=
  [new_StandardField "" "temperature"; new_StandardField "" "pressure"].

(** A type whose fields live in two namespaces. *)
Definition MIXED : EntityType :=
  Build_EntityType "MIXED" false true
    [("HVAC/alarm", OptWrapper.Build (FieldParts.Build "HVAC" "alarm" "") false);
     ("ELEC/beacon", OptWrapper.Build (FieldParts.Build "ELEC" "beacon" "") false)]
    [].

(** A type that records its parent tag in lower case. *)
Definition LOWER : EntityType :=
  Build_EntityType "LOWER" false true [example_field "temperature" false]
    ["vav"].

(** A universe with the three example types. *)
Definition campus_universe : ConfigUniverse :=
  example_universe_of [("ROOM", ROOM); ("MIXED", MIXED); ("LOWER", LOWER)].

(** The score the ranking gives a type for a field list: the score of
    section 4.3 against the fields of the type. *)
Definition score_of (field_list : list StandardField)
    (entity_type : EntityType) : spec_float :=
  spec_score (list_to_set field_list)
    (list_to_set (to_entity_type_fields (_all_fields entity_type))).

(** A type whose inherited fields were never expanded, and its universe. *)
Definition DRAFT : EntityType :=
  Build_EntityType "DRAFT" false false [example_field "temperature" false] [].

Definition draft_universe : ConfigUniverse :=
  example_universe_of [("DRAFT", DRAFT)].

(** An abstract type that was never expanded, in a universe with ROOM. *)
Definition BLUEPRINT : EntityType :=
  Build_EntityType "BLUEPRINT" true false [example_field "temperature" false]
    [].

Definition blueprint_universe : ConfigUniverse :=
  example_universe_of [("BLUEPRINT", BLUEPRINT); ("ROOM", ROOM)].

(** What a ranking tells about the types: each type with its score, in the
    order returned. *)
Definition ranking_outcome (r : result (list Match))
    : result (list (EntityType * spec_float)) :=
  map (fun m => (GetMatchEntityType m, GetMatchScore m)) <$> r.

(** ** Further vocabulary for the properties of the code *)

Definition float_zero : spec_float := S754_zero false.
Definition float_half : spec_float := S754_finite false 4503599627370496 (-53).

(** A zero or a positive finite float. *)
Definition float_nonneg (x : spec_float) : Prop :=
  match x with
  | S754_zero _ => True
  | S754_finite s _ _ => s = false
  | _ => False
  end.

Definition LOWER_fields : gset EntityTypeField :=
  list_to_set (to_entity_type_fields (_all_fields LOWER)).

Definition temperature_only : list StandardField :=
  [new_StandardField "" "temperature"].

Definition pressure_only : list StandardField :=
  [new_StandardField "" "pressure"].

(** A type all of whose fields are optional. *)
Definition LOOSE : EntityType :=
  Build_EntityType "LOOSE" false true
    [example_field "temperature" true; example_field "humidity" true] [].

Definition LOOSE_fields : gset EntityTypeField :=
  list_to_set (to_entity_type_fields (_all_fields LOOSE)).

(** A type with a repeated field, told apart by increments. *)
Definition TWINS : EntityType :=
  Build_EntityType "TWINS" false true
    [("temperature_2",
      OptWrapper.Build (FieldParts.Build "" "temperature" "_2") false);
     ("alarm", OptWrapper.Build (FieldParts.Build "" "alarm" "") true);
     ("temperature_1",
      OptWrapper.Build (FieldParts.Build "" "temperature" "_1") false)]
    [].

Definition twins_universe : ConfigUniverse :=
  example_universe_of [("TWINS", TWINS)].

(** ** [OntologyWrapper.IsFieldValid] *)

(** The argument of [IsFieldValid] is any Python object: a [StandardField],
    or something else, of which only the text of its type matters. *)
Inductive py_object : Type :=
| PyStandardField (field : StandardField)
| PyOther (type_repr : string).

Definition IsFieldValid (self : OntologyWrapper) (field : py_object)
    : result bool :=
  match field with
  | PyOther type_repr =>
      Raise (TypeError ("Field argument must be a StandardField object."
                        +:+ nl +:+ "You provided a " +:+ type_repr
                        +:+ " object."))
  | PyStandardField f =>
      let namespace_name := GetNamespaceName f in
      let standard_field_name := GetStandardFieldName f in
      let validity :=
        IsFieldDefined (field_universe (universe self))
          namespace_name standard_field_name in
      Ok validity
  end.

(** ** The console *)

(** What ends an interactive function early: an exception of the wrapper or
    of a conversion, [input()] at the end of the input, or a dictionary
    asked for a key it does not hold. *)
Inductive io_exn : Type :=
| Raised (e : exn)
| EOFError
| KeyError (key : nat).

(** The lines still to be typed and the texts written so far. *)
Record console : Type := Build_console {
  stdin : list string;
  stdout : list string
}.

Definition io (A : Type) : Type := console -> (io_exn + A) * console.

Global Instance io_ret : MRet io := fun A a c => (inr a, c).

Global Instance io_bind : MBind io := fun A B f m c =>
  match m c with
  | (inr a, c') => f a c'
  | (inl e, c') => (inl e, c')
  end.

Global Instance io_fmap : FMap io := fun A B f m c =>
  match m c with
  | (inr a, c') => (inr (f a), c')
  | (inl e, c') => (inl e, c')
  end.

Definition throw {A : Type} (e : io_exn) : io A := fun c => (inl e, c).

Definition lift {A : Type} (r : result A) : io A :=
  match r with
  | Ok a => mret a
  | Raise e => throw (Raised e)
  end.

Definition write (text : string) : io unit := fun c =>
  (inr tt, Build_console (stdin c) (stdout c ++ [text])).

(** [print(text)]. *)
Definition print (text : string) : io unit := write (text +:+ nl).

(** [input(prompt)]: the prompt is written, then a line is read. *)
Definition input (prompt : string) : io string := fun c =>
  match stdin c with
  | [] => (inl EOFError, Build_console [] (stdout c ++ [prompt]))
  | line :: rest => (inr line, Build_console rest (stdout c ++ [prompt]))
  end.

(** [s.replace(' ', '')]. *)
Fixpoint remove_spaces (s : string) : string :=
  match s with
  | EmptyString => EmptyString
  | String c s' =>
      if Ascii.eqb c " " then remove_spaces s' else String c (remove_spaces s')
  end.

(** [s.split(sep)] for a separator of one character. *)
Fixpoint split_on (sep : ascii) (s : string) : list string :=
  match s with
  | EmptyString => [EmptyString]
  | String c s' =>
      if Ascii.eqb c sep then EmptyString :: split_on sep s'
      else
        match split_on sep s' with
        | piece :: pieces => String c piece :: pieces
        | [] => [String c EmptyString]
        end
  end.

(** ** [lib/parse_input.py] *)

Definition DEFAULT_MATCHED_TYPES_LIST_SIZE : nat := 10.

(** The loop of [_InputFieldsFromUser] over [raw_field_list]. *)
Fixpoint append_valid_fields (ontology : OntologyWrapper)
    (raw_field_list : list string) (standard_field_list : list StandardField)
    : io (list StandardField) :=
  match raw_field_list with
  | [] => mret standard_field_list
  | field :: raw_field_list' =>
      let standard_field := new_StandardField "" field in
      valid ← lift (IsFieldValid ontology (PyStandardField standard_field));
      append_valid_fields ontology raw_field_list'
        (if valid : bool then standard_field_list ++ [standard_field]
         else standard_field_list)
  end.

(** [entity_type_match_dict[i]]; the dictionary built from [enumerate] has the
    keys 0 to n-1, so it is the list of its values. *)
Definition dict_item (entity_type_match_dict : list Match) (i : nat)
    : io Match :=
  match entity_type_match_dict !! i with
  | Some m => mret m
  | None => throw (KeyError i)
  end.

Section parse_input.

(** The built-ins and library calls the module relies on. *)
Variable upper : string -> string.
Variable int : string -> result Z.
Variable literal_eval_is_1 : string -> result bool.
Variable colored : string -> string -> string.
Variable str_of_match : Match -> string.
Variable str_of_field : EntityTypeField -> string.

Definition _InputFieldsFromUser (ontology : OntologyWrapper) (manual : bool)
    : io (list StandardField) :=
  raw_field_list ←
    (if manual
     then
       field_number ← input "Number of entity fields: ";
       n ← lift (int field_number);
       mapM (fun i => input ("Field name #" +:+ pretty i +:+ ": ")) (seqZ 1 n)
     else
       raw_fields ← input "Paste your fields here: ";
       mret (split_on "," (remove_spaces raw_fields)));
  append_valid_fields ontology raw_field_list [].

(** [GetFieldsForTypeName(ontology)] of the command line. *)
Definition PrintFieldsForTypeName (ontology : OntologyWrapper) : io unit :=
  namespace_name ← upper <$> input "Enter a namespace: ";
  type_name ←
    upper <$> input ("Enter a type name defined in " +:+ namespace_name +:+ ": ");
  fields ← lift (GetFieldsForTypeName ontology namespace_name type_name false);
  _ ← print (nl +:+ "Fields for " +:+ namespace_name +:+ "/" +:+ type_name
             +:+ ":");
  _ ← mapM (fun field => print (colored (str_of_field field) "green")) fields;
  mret tt.

(** The text [colored(f'{i+1}. {match}', 'green')]. *)
Definition match_line (i : nat) (m : Match) : string :=
  colored (pretty (i + 1)%nat +:+ ". " +:+ str_of_match m) "green".

(** The first printing loop of [GetTypesForFieldList]. *)
Definition print_first_matches (entity_type_match_dict : list Match)
    : io unit :=
  _ ← mapM (fun i =>
              m ← dict_item entity_type_match_dict i;
              print (match_line i m))
           (seq 0 DEFAULT_MATCHED_TYPES_LIST_SIZE);
  mret tt.

(** [GetTypesForFieldList], with what follows the first printing loop left
    to [continue]. *)
Definition GetTypesForFieldList (continue : list Match -> io unit)
    (ontology : OntologyWrapper) : io unit :=
  _ ← print ("1. Input fields one by one" +:+ nl
             +:+ "2. Paste comma-separated list of fields");
  input_decision ← input "Input type: ";
  manual_input ← lift (literal_eval_is_1 input_decision);
  standard_field_list ← _InputFieldsFromUser ontology manual_input;
  entity_type_match_dict ←
    lift (GetEntityTypesFromFields upper ontology standard_field_list None
            false);
  _ ← print_first_matches entity_type_match_dict;
  continue entity_type_match_dict.

End parse_input.

(** Whether a character occurs in a string. *)
Fixpoint string_has (c : ascii) (s : string) : bool :=
  match s with
  | EmptyString => false
  | String c' s' => Ascii.eqb c c' || string_has c s'
  end.

(** The field universe of the examples knows the fields of ROOM only. *)
Definition room_field_universe : FieldUniverse :=
  Build_FieldUniverse (fun namespace_name fieldname =>
    String.eqb namespace_name ""
    && (String.eqb fieldname "temperature" || String.eqb fieldname "occupancy"
        || String.eqb fieldname "humidity")).

Definition room_wrapper : OntologyWrapper :=
  __init__ (Build_ConfigUniverse (entity_type_universe campus_universe)
              room_field_universe).

(** A universe with eleven types: LOWER, then ROOM ten times over. *)
Definition eleven_types_universe : ConfigUniverse :=
  example_universe_of
    (("LOWER", LOWER) ::
     map (fun k => (k, ROOM))
       ["R0"; "R1"; "R2"; "R3"; "R4"; "R5"; "R6"; "R7"; "R8"; "R9"]).

(** A plain rendering of a match, for the examples. *)
Definition plain_match (m : Match) : string := typename (GetMatchEntityType m).

(** * Verification *)

(** ** Binary digits *)

Lemma fexp_eq e : fexp prec emax e = Z.max (e - 53) (-1074).
Proof. reflexivity. Qed.

Lemma fexp_mono a b : a <= b -> fexp prec emax a <= fexp prec emax b.
Proof. rewrite !fexp_eq. lia. Qed.

Lemma pow2_pos n : 0 < 2 ^ n \/ (n < 0 /\ 2 ^ n = 0).
Proof.
  destruct (Z_lt_le_dec n 0) as [Hn|Hn].
  - right. split; [done|]. by apply Z.pow_neg_r.
  - left. by apply Z.pow_pos_nonneg.
Qed.

Lemma pow2_gt0 n : 0 <= n -> 0 < 2 ^ n.
Proof. intros. by apply Z.pow_pos_nonneg. Qed.

Lemma pow2_split a b : 0 <= a -> 0 <= b -> 2 ^ (a + b) = 2 ^ a * 2 ^ b.
Proof. intros. by apply Z.pow_add_r. Qed.

Lemma pow2_lt_inv a b : 0 <= b -> 2 ^ a < 2 ^ b -> a < b.
Proof.
  intros Hb H. destruct (Z_lt_le_dec a b) as [|Hle]; [done|].
  pose proof (Z.pow_le_mono_r 2 b a ltac:(lia) Hle). lia.
Qed.

Lemma digits2_pos_bounds p :
  2 ^ (Z.pos (digits2_pos p) - 1) <= Z.pos p < 2 ^ Z.pos (digits2_pos p).
Proof.
  induction p as [p IH|p IH|]; simpl digits2_pos.
  - rewrite Pos2Z.inj_succ. change (Z.pos p~1) with (2 * Z.pos p + 1).
    replace (Z.succ (Z.pos (digits2_pos p)) - 1) with (Z.succ (Z.pos (digits2_pos p) - 1)) by lia.
    rewrite !Z.pow_succ_r by lia. lia.
  - rewrite Pos2Z.inj_succ. change (Z.pos p~0) with (2 * Z.pos p).
    replace (Z.succ (Z.pos (digits2_pos p)) - 1) with (Z.succ (Z.pos (digits2_pos p) - 1)) by lia.
    rewrite !Z.pow_succ_r by lia. lia.
  - simpl. lia.
Qed.

Lemma Zdigits2_nonneg m : 0 <= Zdigits2 m.
Proof. destruct m; simpl; lia. Qed.

Lemma Zdigits2_upper m : 0 <= m -> m < 2 ^ Zdigits2 m.
Proof.
  destruct m as [|p|p]; simpl; intros; try lia.
  apply digits2_pos_bounds.
Qed.

Lemma Zdigits2_lower m : 0 < m -> 2 ^ (Zdigits2 m - 1) <= m.
Proof.
  destruct m as [|p|p]; simpl; intros; try lia.
  apply digits2_pos_bounds.
Qed.

(** [2 ^ j <= m] forces at least [j + 1] binary digits. *)
Lemma Zdigits2_gt j m : 0 <= j -> 2 ^ j <= m -> j < Zdigits2 m.
Proof.
  intros Hj Hm. pose proof (pow2_gt0 j Hj).
  apply pow2_lt_inv; [apply Zdigits2_nonneg|].
  pose proof (Zdigits2_upper m). lia.
Qed.

(** [m < 2 ^ j] leaves at most [j] binary digits. *)
Lemma Zdigits2_le j m : 0 <= j -> 0 <= m -> m < 2 ^ j -> Zdigits2 m <= j.
Proof.
  intros Hj Hm Hlt.
  destruct (Z.eq_dec m 0) as [->|Hne]; [simpl; lia|].
  pose proof (Zdigits2_lower m ltac:(lia)) as Hlo.
  pose proof (Zdigits2_nonneg m).
  assert (Zdigits2 m - 1 < j); [|lia].
  apply pow2_lt_inv; lia.
Qed.

Lemma Zdigits2_mono a b : 0 <= a <= b -> Zdigits2 a <= Zdigits2 b.
Proof.
  intros [Ha Hab]. apply Zdigits2_le; [apply Zdigits2_nonneg|done|].
  pose proof (Zdigits2_upper b). lia.
Qed.

Lemma Zdigits2_shift m n : 0 < m -> 0 <= n -> Zdigits2 (m * 2 ^ n) = Zdigits2 m + n.
Proof.
  intros Hm Hn. pose proof (pow2_gt0 n Hn).
  pose proof (Zdigits2_lower m Hm). pose proof (Zdigits2_upper m ltac:(lia)).
  pose proof (Zdigits2_nonneg m).
  assert (0 < Zdigits2 m) by (apply (Zdigits2_gt 0); simpl; lia).
  apply Z.le_antisymm.
  - apply Zdigits2_le; [lia|nia|]. rewrite pow2_split by lia. nia.
  - assert (Zdigits2 m + n - 1 < Zdigits2 (m * 2 ^ n)); [|lia].
    apply Zdigits2_gt; [lia|].
    replace (Zdigits2 m + n - 1) with ((Zdigits2 m - 1) + n) by lia.
    rewrite pow2_split by lia. nia.
Qed.

Lemma Zdigits2_div m n :
  0 <= m -> 0 <= n -> 0 < m / 2 ^ n -> Zdigits2 (m / 2 ^ n) = Zdigits2 m - n.
Proof.
  intros Hm Hn Hq. pose proof (pow2_gt0 n Hn) as Hp.
  pose proof (Z.mul_div_le m (2 ^ n) Hp).
  pose proof (Z.mul_succ_div_gt m (2 ^ n) Hp).
  set (q := m / 2 ^ n) in *.
  pose proof (Zdigits2_lower q Hq). pose proof (Zdigits2_upper q ltac:(lia)).
  pose proof (Zdigits2_nonneg q).
  assert (0 < Zdigits2 q) by (apply (Zdigits2_gt 0); simpl; lia).
  apply Z.le_antisymm.
  - assert (Zdigits2 q + n - 1 < Zdigits2 m); [|lia].
    apply Zdigits2_gt; [lia|].
    replace (Zdigits2 q + n - 1) with ((Zdigits2 q - 1) + n) by lia.
    rewrite pow2_split by lia. nia.
  - assert (Zdigits2 m <= Zdigits2 q + n); [|lia].
    apply Zdigits2_le; [lia|lia|]. rewrite pow2_split by lia. nia.
Qed.

(** ** Right shifts with sticky bits *)

Lemma shr_rel_refl x : 0 <= shr_m x -> shr_rel 0 x x.
Proof.
  intros Hx. repeat split; try done.
  by rewrite Z.pow_0_r, Z.div_1_r.
Qed.

Lemma shr_1_rel x : 0 <= shr_m x -> shr_rel 1 x (shr_1 x).
Proof.
  destruct x as [m r s]. unfold shr_rel. change (2 ^ 1) with 2.
  destruct m as [|[p|p|]|p]; simpl; intros Hm; try lia.
  - split; [lia|]. split; [reflexivity|]. by intros -> ->.
  - change (Z.pos p~1) with (2 * Z.pos p + 1).
    split; [lia|]. split; [|intros _ _ H].
    + Z.to_euclidean_division_equations; lia.
    + exfalso. revert H. Z.to_euclidean_division_equations; lia.
  - change (Z.pos p~0) with (2 * Z.pos p).
    split; [lia|]. split; [|by intros -> ->].
    Z.to_euclidean_division_equations; lia.
  - split; [lia|]. split; [reflexivity|]. intros _ _ H. discriminate H.
Qed.

Lemma shr_rel_comp a b x y z :
  0 <= a -> 0 <= b -> 0 <= shr_m x ->
  shr_rel a x y -> shr_rel b y z -> shr_rel (a + b) x z.
Proof.
  intros Ha Hb Hx (Hy0 & Hy & Hye) (Hz0 & Hz & Hze).
  pose proof (pow2_gt0 a Ha) as Hpa. pose proof (pow2_gt0 b Hb) as Hpb.
  unfold shr_rel. rewrite pow2_split by done.
  split; [done|]. split.
  - rewrite Hz, Hy. rewrite Z.div_div by lia. done.
  - intros Hr Hs Hmod.
    rewrite Z.rem_mul_r in Hmod by lia.
    pose proof (Z.mod_pos_bound (shr_m x) (2 ^ a) Hpa).
    pose proof (Z.mod_pos_bound (shr_m x / 2 ^ a) (2 ^ b) Hpb).
    destruct Hye as [Hr' Hs']; [done|done|nia|].
    apply Hze; [done|done|]. rewrite Hy. nia.
Qed.

Lemma iter_pos_shr_1 p x :
  0 <= shr_m x -> shr_rel (Z.pos p) x (SpecFloat.iter_pos shr_1 p x).
Proof.
  revert x. induction p as [p IH|p IH|]; intros x Hx; simpl.
  - pose proof (shr_1_rel x Hx) as H1.
    pose proof (IH _ (proj1 H1)) as H2.
    pose proof (IH _ (proj1 H2)) as H3.
    change (Z.pos p~1) with (2 * Z.pos p + 1).
    replace (2 * Z.pos p + 1) with (1 + (Z.pos p + Z.pos p)) by lia.
    apply shr_rel_comp with (y := shr_1 x); [lia|lia|done|done|].
    apply shr_rel_comp with (y := SpecFloat.iter_pos shr_1 p (shr_1 x)); try lia; try done.
    apply H1.
  - pose proof (IH _ Hx) as H2.
    pose proof (IH _ (proj1 H2)) as H3.
    change (Z.pos p~0) with (2 * Z.pos p).
    replace (2 * Z.pos p) with (Z.pos p + Z.pos p) by lia.
    apply shr_rel_comp with (y := SpecFloat.iter_pos shr_1 p x); try lia; done.
  - by apply shr_1_rel.
Qed.

Lemma shr_spec x e n :
  0 <= shr_m x -> 0 <= n ->
  exists y, shr x e n = (y, e + n) /\ shr_rel n x y.
Proof.
  intros Hx Hn. destruct n as [|p|p]; simpl; [| |lia].
  - exists x. rewrite Z.add_0_r. split; [done|]. by apply shr_rel_refl.
  - exists (SpecFloat.iter_pos shr_1 p x). split; [done|]. by apply iter_pos_shr_1.
Qed.

Lemma shr_record_of_loc_m m l : shr_m (shr_record_of_loc m l) = m.
Proof. by destruct l as [|[]]. Qed.

Lemma loc_of_shr_record_exact y :
  shr_r y = false -> shr_s y = false -> loc_of_shr_record y = loc_Exact.
Proof. destruct y as [m r s]; simpl. by intros -> ->. Qed.

(** Shifting to the exponent the format asks for: the mantissa is divided,
    an exact input without lost bits stays exact, and what is left is either
    nothing or a canonical mantissa. *)
Lemma shr_fexp_spec m e l :
  0 <= m -> e <= fexp prec emax (Zdigits2 m + e) ->
  exists y,
    shr_fexp prec emax m e l = (y, fexp prec emax (Zdigits2 m + e)) /\
    0 <= shr_m y /\
    shr_m y = m / 2 ^ (fexp prec emax (Zdigits2 m + e) - e) /\
    (l = loc_Exact -> m mod 2 ^ (fexp prec emax (Zdigits2 m + e) - e) = 0 ->
     loc_of_shr_record y = loc_Exact) /\
    (forall d, Zdigits2 (shr_m y) <= d ->
       fexp prec emax (Zdigits2 m + e) <=
       fexp prec emax (d + fexp prec emax (Zdigits2 m + e))) /\
    (0 < shr_m y ->
       fexp prec emax (Zdigits2 (shr_m y) + fexp prec emax (Zdigits2 m + e)) =
       fexp prec emax (Zdigits2 m + e)).
Proof.
  intros Hm He. unfold shr_fexp.
  set (e' := fexp prec emax (Zdigits2 m + e)) in *.
  destruct (shr_spec (shr_record_of_loc m l) e (e' - e)) as (y & Hy & H0 & Hdiv & Hex).
  { by rewrite shr_record_of_loc_m. }
  { lia. }
  rewrite shr_record_of_loc_m in Hdiv, Hex.
  exists y. replace (e + (e' - e)) with e' in Hy by lia.
  assert (Hcanon : 0 < shr_m y -> fexp prec emax (Zdigits2 (shr_m y) + e') = e').
  { intros Hpos. rewrite Hdiv in Hpos |- *.
    rewrite Zdigits2_div by lia.
    replace (Zdigits2 m - (e' - e) + e') with (Zdigits2 m + e) by lia. done. }
  repeat split; try done.
  - intros -> Hmod. destruct Hex as [Hr Hs]; [done..|].
    by apply loc_of_shr_record_exact.
  - intros d Hd.
    destruct (Z.eq_dec (shr_m y) 0) as [Hz|Hnz].
    + assert (e' = -1074); [|rewrite fexp_eq; lia].
      rewrite Hdiv in Hz.
      apply Z.div_small_iff in Hz; [|pose proof (pow2_gt0 (e' - e)); lia].
      destruct Hz as [Hz|Hz]; [|pose proof (pow2_gt0 (e' - e)); lia].
      assert (Zdigits2 m <= e' - e) by (apply Zdigits2_le; lia).
      subst e'. rewrite fexp_eq in *. lia.
    + rewrite <- (Hcanon ltac:(lia)) at 1.
      apply fexp_mono. lia.
Qed.

Lemma round_nearest_even_spec m l :
  m <= round_nearest_even m l <= m + 1 /\
  (l = loc_Exact -> round_nearest_even m l = m).
Proof.
  destruct l as [|[]]; simpl; try (split; [lia|done]).
  destruct (Z.even m); split; (lia || done).
Qed.

(** ** Rounding never crosses a power of two *)

Lemma pow2_digits_le m j : 0 <= j -> 0 <= m <= 2 ^ j -> Zdigits2 m <= j + 1.
Proof.
  intros Hj Hm. apply Zdigits2_le; [lia|lia|].
  replace (j + 1) with (Z.succ j) by lia.
  rewrite Z.pow_succ_r by done. pose proof (pow2_gt0 j Hj). lia.
Qed.

Lemma pow2_div_le m a b :
  0 <= b <= a -> m <= 2 ^ a -> m / 2 ^ b <= 2 ^ (a - b).
Proof.
  intros Hab Hm. pose proof (pow2_gt0 b ltac:(lia)).
  apply Z.div_le_upper_bound; [done|].
  rewrite <- pow2_split by lia. by replace (b + (a - b)) with a by lia.
Qed.

Theorem binary_round_aux_bounded s mz ez lz k :
  0 <= mz -> ez <= fexp prec emax (Zdigits2 mz + ez) ->
  -1074 <= k <= 1023 -> ez <= k -> mz <= 2 ^ (k - ez) ->
  (mz = 2 ^ (k - ez) -> lz = loc_Exact) ->
  pow_bounded k (binary_round_aux prec emax s mz ez lz).
Proof.
  intros Hmz Hez Hk Hezk Hle Hexact. unfold binary_round_aux.
  destruct (shr_fexp_spec mz ez lz Hmz Hez)
    as (y1 & -> & Hy0 & Hydiv & Hyex & Hyfexp & _).
  set (e1 := fexp prec emax (Zdigits2 mz + ez)) in *.
  assert (He1 : e1 <= k).
  { pose proof (pow2_digits_le mz (k - ez) ltac:(lia) ltac:(lia)).
    subst e1. rewrite fexp_eq. lia. }
  assert (Hy_le : shr_m y1 <= 2 ^ (k - e1)).
  { rewrite Hydiv. replace (k - e1) with ((k - ez) - (e1 - ez)) by lia.
    apply pow2_div_le; lia. }
  set (m1 := round_nearest_even (shr_m y1) (loc_of_shr_record y1)).
  assert (Hm1 : shr_m y1 <= m1 <= 2 ^ (k - e1)).
  { destruct (round_nearest_even_spec (shr_m y1) (loc_of_shr_record y1))
      as [Hr Hre]. fold m1 in Hr, Hre.
    split; [lia|].
    destruct (Z.eq_dec (shr_m y1) (2 ^ (k - e1))) as [Heq|Hne]; [|lia].
    rewrite Hre; [lia|].
    pose proof (pow2_gt0 (e1 - ez) ltac:(lia)) as Hp.
    pose proof (Z.div_mod mz (2 ^ (e1 - ez)) ltac:(lia)) as Hdm.
    pose proof (Z.mod_pos_bound mz (2 ^ (e1 - ez)) Hp) as Hmb.
    rewrite <- Hydiv, Heq, <- pow2_split in Hdm by lia.
    replace (e1 - ez + (k - e1)) with (k - ez) in Hdm by lia.
    apply Hyex; [apply Hexact|]; lia. }
  destruct (shr_fexp_spec m1 e1 loc_Exact) as (y2 & -> & Hy2 & Hy2div & _ & _ & Hcanon).
  { lia. }
  { apply Hyfexp. apply Zdigits2_mono. lia. }
  set (e2 := fexp prec emax (Zdigits2 m1 + e1)) in *.
  assert (He2 : e1 <= e2 <= k /\ e2 <= 971).
  { pose proof (pow2_digits_le m1 (k - e1) ltac:(lia) ltac:(lia)).
    assert (e1 <= e2) by (apply Hyfexp, Zdigits2_mono; lia).
    subst e2. rewrite fexp_eq in *. lia. }
  assert (Hy2_le : shr_m y2 <= 2 ^ (k - e2)).
  { rewrite Hy2div. replace (k - e2) with ((k - e1) - (e2 - e1)) by lia.
    apply pow2_div_le; lia. }
  destruct (shr_m y2) as [|p|p] eqn:Hp; [done| |lia].
  replace (e2 <=? emax - prec) with true by (symmetry; apply Z.leb_le; unfold emax, prec; lia).
  simpl. split; [|lia].
  unfold bounded, canonical_mantissa.
  apply andb_true_intro. split.
  - apply Z.eqb_eq. apply (Hcanon ltac:(lia)).
  - apply Z.leb_le. unfold emax, prec. lia.
Qed.

Lemma pow_bounded_mono k k' x : k <= k' -> pow_bounded k x -> pow_bounded k' x.
Proof.
  intros Hk. destruct x as [| | |s m e]; simpl; try done.
  intros (Hb & He & Hm). split; [done|]. split; [lia|].
  pose proof (Z.pow_le_mono_r 2 (k - e) (k' - e) ltac:(lia) ltac:(lia)). lia.
Qed.

(** ** Division *)

Lemma new_location_exact n r : r = 0 -> new_location n r = loc_Exact.
Proof.
  intros ->. unfold new_location, new_location_even, new_location_odd.
  by destruct (Z.even n).
Qed.

Lemma div_eucl_div_mod a b : Z.div_eucl a b = (a / b, a mod b).
Proof. unfold Z.div, Z.modulo. by destruct (Z.div_eucl a b). Qed.

Lemma SFdiv_core_binary_eq m1 e1 m2 e2 :
  let e' := Z.min (fexp prec emax (Zdigits2 m1 + e1 - (Zdigits2 m2 + e2))) (e1 - e2) in
  let s := e1 - e2 - e' in
  SFdiv_core_binary prec emax m1 e1 m2 e2 =
    ((m1 * 2 ^ s) / m2, e', new_location m2 ((m1 * 2 ^ s) mod m2)).
Proof.
  intros e' s. unfold SFdiv_core_binary. fold e'. fold s.
  assert (Hs : 0 <= s) by (subst s e'; lia).
  replace (match s with 0 => m1 | Z.pos _ => Z.shiftl m1 s | Z.neg _ => 0 end)
    with (m1 * 2 ^ s).
  - by rewrite div_eucl_div_mod.
  - destruct s as [|p|p]; [rewrite Z.pow_0_r; lia| |lia].
    by rewrite Z.shiftl_mul_pow2.
Qed.

Lemma Zdigits2_quot m1 m2 s :
  0 < m1 -> 0 < m2 -> 0 <= s ->
  Zdigits2 m1 + s - Zdigits2 m2 <= Zdigits2 (m1 * 2 ^ s / m2).
Proof.
  intros H1 H2 Hs.
  pose proof (Zdigits2_nonneg (m1 * 2 ^ s / m2)).
  destruct (Z_le_gt_dec (Zdigits2 m1 + s - Zdigits2 m2) 0) as [|Hgt]; [lia|].
  set (j := Zdigits2 m1 + s - Zdigits2 m2 - 1).
  assert (j < Zdigits2 (m1 * 2 ^ s / m2)); [|lia].
  pose proof (Zdigits2_nonneg m2). pose proof (Zdigits2_nonneg m1).
  assert (0 < Zdigits2 m1) by (apply (Zdigits2_gt 0); simpl; lia).
  assert (0 < Zdigits2 m2) by (apply (Zdigits2_gt 0); simpl; lia).
  apply Zdigits2_gt; [lia|].
  apply Z.div_le_lower_bound; [done|].
  pose proof (Zdigits2_upper m2 ltac:(lia)).
  pose proof (Zdigits2_lower m1 H1).
  pose proof (pow2_gt0 j ltac:(lia)). pose proof (pow2_gt0 s Hs).
  assert (2 ^ (Zdigits2 m1 - 1) * 2 ^ s = 2 ^ Zdigits2 m2 * 2 ^ j) as Heq.
  { rewrite <- !pow2_split by lia. f_equal. lia. }
  nia.
Qed.

(** The quotient of two finite floats whose magnitudes are in the order
    [|x| <= |y|] rounds to a float of magnitude at most one. The order is
    stated on the integer mantissas, scaled to a common exponent. *)
Theorem SFdiv_bounded sx mx ex sy my ey :
  (forall a b, 0 <= a -> 0 <= b -> a - b = ex - ey ->
     Z.pos mx * 2 ^ a <= Z.pos my * 2 ^ b) ->
  pow_bounded 0 (SFdiv prec emax (S754_finite sx mx ex) (S754_finite sy my ey)).
Proof.
  intros H. unfold SFdiv. rewrite SFdiv_core_binary_eq.
  set (d1 := Zdigits2 (Z.pos mx)). set (d2 := Zdigits2 (Z.pos my)).
  set (e' := Z.min (fexp prec emax (d1 + ex - (d2 + ey))) (ex - ey)).
  set (s := ex - ey - e').
  assert (Hs : 0 <= s) by (subst s e'; lia).
  assert (HD : d1 + ex - (d2 + ey) <= 0).
  { pose proof (H (Z.max (ex - ey) 0) (Z.max (ey - ex) 0) ltac:(lia) ltac:(lia) ltac:(lia)) as Hab.
    pose proof (Zdigits2_lower (Z.pos mx) ltac:(lia)) as Hlo. fold d1 in Hlo.
    pose proof (Zdigits2_upper (Z.pos my) ltac:(lia)) as Hup. fold d2 in Hup.
    assert (0 < d1) by (apply (Zdigits2_gt 0); simpl; lia).
    assert (0 < d2) by (apply (Zdigits2_gt 0); simpl; lia).
    pose proof (pow2_gt0 (Z.max (ex - ey) 0) ltac:(lia)).
    pose proof (pow2_gt0 (Z.max (ey - ex) 0) ltac:(lia)).
    assert (d1 - 1 + Z.max (ex - ey) 0 < d2 + Z.max (ey - ex) 0); [|lia].
    apply pow2_lt_inv; [lia|]. rewrite !pow2_split by lia. nia. }
  assert (He' : e' <= -53) by (subst e'; rewrite fexp_eq; lia).
  pose proof (pow2_gt0 s Hs) as Hps.
  pose proof (H s (- e') Hs ltac:(lia) ltac:(lia)) as Hle.
  apply binary_round_aux_bounded.
  - apply Z.div_pos; lia.
  - pose proof (Zdigits2_quot (Z.pos mx) (Z.pos my) s ltac:(lia) ltac:(lia) Hs) as Hq.
    fold d1 d2 in Hq.
    transitivity (fexp prec emax (d1 + ex - (d2 + ey))); [subst e'; lia|].
    apply fexp_mono. lia.
  - lia.
  - lia.
  - apply Z.div_le_upper_bound; [lia|]. replace (0 - e') with (- e') by lia. lia.
  - intros Hq. apply new_location_exact.
    replace (0 - e') with (- e') in Hq by lia.
    pose proof (Z.div_mod (Z.pos mx * 2 ^ s) (Z.pos my) ltac:(lia)) as Hdm.
    pose proof (Z.mod_pos_bound (Z.pos mx * 2 ^ s) (Z.pos my) ltac:(lia)).
    rewrite Hq in Hdm. lia.
Qed.

(** ** Addition *)

Lemma pos_iter_xO m d : Z.pos (Pos.iter xO m d) = Z.pos m * 2 ^ Z.pos d.
Proof.
  induction d as [|d IH] using Pos.peano_ind.
  - simpl. lia.
  - rewrite Pos.iter_succ, Pos2Z.inj_succ, Z.pow_succ_r by lia.
    change (Z.pos (Pos.iter xO m d)~0) with (2 * Z.pos (Pos.iter xO m d)).
    rewrite IH. lia.
Qed.

Lemma shl_align_spec mx ex ex' :
  Z.pos (fst (shl_align mx ex ex')) = Z.pos mx * 2 ^ (ex - Z.min ex ex') /\
  snd (shl_align mx ex ex') = Z.min ex ex'.
Proof.
  unfold shl_align. destruct (ex' - ex) as [|d|d] eqn:Hd; simpl.
  - replace (ex - Z.min ex ex') with 0 by lia. rewrite Z.pow_0_r. lia.
  - replace (ex - Z.min ex ex') with 0 by lia. rewrite Z.pow_0_r. lia.
  - rewrite pos_iter_xO. replace (ex - Z.min ex ex') with (Z.pos d) by lia. lia.
Qed.

Theorem binary_round_bounded s m e k :
  -1074 <= k <= 1023 -> e <= k -> Z.pos m <= 2 ^ (k - e) ->
  pow_bounded k (binary_round prec emax s m e).
Proof.
  intros Hk He Hm. unfold binary_round.
  set (fe := fexp prec emax (Z.pos (digits2_pos m) + e)).
  destruct (shl_align_spec m e fe) as [Hfst Hsnd].
  destruct (shl_align m e fe) as [mz ez]. simpl in Hfst, Hsnd. subst ez.
  pose proof (pow2_gt0 (e - Z.min e fe) ltac:(lia)) as Hp.
  apply binary_round_aux_bounded; try lia.
  - rewrite Hfst, Zdigits2_shift by lia. simpl Zdigits2. fold fe.
    destruct (Z_lt_le_dec fe e).
    + replace (Z.pos (digits2_pos m) + (e - Z.min e fe) + Z.min e fe)
        with (Z.pos (digits2_pos m) + e) by lia.
      fold fe. lia.
    + replace (Z.pos (digits2_pos m) + (e - Z.min e fe) + Z.min e fe)
        with (Z.pos (digits2_pos m) + e) by lia.
      fold fe. lia.
  - rewrite Hfst.
    replace (k - Z.min e fe) with ((k - e) + (e - Z.min e fe)) by lia.
    rewrite pow2_split by lia. nia.
  - done.
Qed.

Theorem SFadd_bounded x y :
  pow_bounded 0 x -> pow_bounded 0 y -> pow_bounded 1 (SFadd prec emax x y).
Proof.
  destruct x as [sx| | |sx mx ex], y as [sy| | |sy my ey]; simpl; try done.
  - intros _ _. by destruct sx, sy.
  - intros _ (Hb & He & Hm). split; [done|]. split; [lia|].
    pose proof (Z.pow_le_mono_r 2 (0 - ey) (1 - ey) ltac:(lia) ltac:(lia)). lia.
  - intros (Hb & He & Hm) _. split; [done|]. split; [lia|].
    pose proof (Z.pow_le_mono_r 2 (0 - ex) (1 - ex) ltac:(lia) ltac:(lia)). lia.
  - intros (_ & Hex & Hmx) (_ & Hey & Hmy).
    set (ez := Z.min ex ey).
    destruct (shl_align_spec mx ex ez) as [Hx _].
    destruct (shl_align_spec my ey ez) as [Hy _].
    replace (Z.min ex ez) with ez in Hx by lia.
    replace (Z.min ey ez) with ez in Hy by lia.
    set (ax := Z.pos (fst (shl_align mx ex ez))) in *.
    set (ay := Z.pos (fst (shl_align my ey ez))) in *.
    assert (Hax : 0 < ax <= 2 ^ (0 - ez)).
    { split; [subst ax; lia|]. rewrite Hx.
      replace (0 - ez) with ((0 - ex) + (ex - ez)) by lia.
      rewrite pow2_split by lia. pose proof (pow2_gt0 (ex - ez) ltac:(lia)). nia. }
    assert (Hay : 0 < ay <= 2 ^ (0 - ez)).
    { split; [subst ay; lia|]. rewrite Hy.
      replace (0 - ez) with ((0 - ey) + (ey - ez)) by lia.
      rewrite pow2_split by lia. pose proof (pow2_gt0 (ey - ez) ltac:(lia)). nia. }
    assert (Hpow : 2 ^ (1 - ez) = 2 * 2 ^ (0 - ez)).
    { replace (1 - ez) with (Z.succ (0 - ez)) by lia. rewrite Z.pow_succ_r; lia. }
    unfold binary_normalize.
    destruct (cond_Zopp sx ax + cond_Zopp sy ay) as [|m|m] eqn:Hsum; [done| |];
      apply binary_round_bounded; try lia;
      destruct sx, sy; simpl in Hsum; lia.
Qed.

(** ** Order *)

(** ** Order *)

Lemma pow_bounded_finite k x : pow_bounded k x -> is_finite x.
Proof. by destruct x. Qed.

Lemma bounded_canonical m e :
  bounded prec emax m e = true ->
  fexp prec emax (Z.pos (digits2_pos m) + e) = e.
Proof.
  unfold bounded, canonical_mantissa. intros H.
  apply andb_prop in H as [H _]. by apply Z.eqb_eq.
Qed.

Lemma pow_bounded_exponent m e :
  bounded prec emax m e = true -> e <= 0 -> Z.pos m <= 2 ^ (0 - e) ->
  e < -52 \/ (e = -52 /\ Z.pos m <= 4503599627370496).
Proof.
  intros Hb He Hm. apply bounded_canonical in Hb. rewrite fexp_eq in Hb.
  pose proof (digits2_pos_bounds m) as [Hlo Hhi].
  destruct (Z_lt_le_dec e (-52)) as [|Hge]; [by left|right].
  destruct (Z.eq_dec e (-52)) as [->|Hne].
  - split; [done|]. exact Hm.
  - exfalso. assert (Z.pos (digits2_pos m) = 53) as Hd by lia.
    rewrite Hd in Hlo. change (2 ^ (53 - 1)) with 4503599627370496 in Hlo.
    pose proof (Z.pow_le_mono_r 2 (0 - e) 51 ltac:(lia) ltac:(lia)) as Hp.
    change (2 ^ 51) with 2251799813685248 in Hp. lia.
Qed.

Theorem pow_bounded_unit_interval x :
  pow_bounded 0 x ->
  SFleb float_neg_one x = true /\ SFleb x float_one = true.
Proof.
  unfold float_one, float_neg_one.
  destruct x as [s| | |s m e]; cbn [pow_bounded]; try done.
  intros (Hb & He & Hm).
  destruct (pow_bounded_exponent m e Hb He Hm) as [Hlt|[-> Hle]]; revert Hle || idtac;
    generalize 4503599627370496%positive as M; intros M; try intros Hle;
    unfold SFleb; cbn [SFcompare];
    change (Pos.compare_cont Eq) with Pos.compare.
  - destruct s.
    + destruct (Z.compare_spec (-52) e); (lia || done).
    + destruct (Z.compare_spec e (-52)); (lia || done).
  - rewrite Z.compare_refl. destruct s.
    + split; [|done].
      destruct (Pos.compare_spec M m); simpl; (lia || done).
    + split; [done|].
      destruct (Pos.compare_spec m M); simpl; (lia || done).
Qed.

Lemma SFcompare_antisym x y :
  SFcompare y x = CompOpp <$> SFcompare x y.
Proof.
  destruct x as [sx|sx| |sx mx ex], y as [sy|sy| |sy my ey]; simpl;
    try done; try (by destruct sx); try (by destruct sy);
    try (by destruct sx, sy).
  change (Pos.compare_cont Eq) with Pos.compare.
  rewrite (Z.compare_antisym ex ey), (Pos.compare_antisym mx my).
  destruct sx, sy; simpl; try done;
    destruct (ex ?= ey); simpl; try done;
    destruct (mx ?= my)%positive; done.
Qed.

Lemma SFcompare_finite x y :
  is_finite x -> is_finite y -> is_Some (SFcompare x y).
Proof. destruct x, y; simpl; try done; eauto. Qed.

Lemma SFltb_false_SFleb x y :
  is_finite x -> is_finite y -> SFltb y x = false -> SFleb x y = true.
Proof.
  intros Hx Hy. unfold SFltb, SFleb. rewrite (SFcompare_antisym x y).
  destruct (SFcompare_finite x y Hx Hy) as [c ->]. by destruct c.
Qed.

Lemma SFltb_SFleb x y : SFltb x y = true -> SFleb x y = true.
Proof. unfold SFltb, SFleb. by destruct (SFcompare x y) as [[]|]. Qed.

Lemma SFleb_rank x y :
  is_finite x -> is_finite y ->
  SFleb x y = true <-> rank_le (float_rank x) (float_rank y).
Proof.
  intros Hx Hy. unfold SFleb.
  destruct x as [sx| | |sx mx ex], y as [sy| | |sy my ey]; try done; simpl.
  - split; [lia|done].
  - destruct sy; simpl; split; (lia || done).
  - destruct sx; simpl; split; (lia || done).
  - change (Pos.compare_cont Eq) with Pos.compare.
    destruct sx, sy; simpl; try (split; (lia || done));
      destruct (Z.compare_spec ex ey); simpl;
      try destruct (Pos.compare_spec mx my); simpl; split; (lia || done).
Qed.

Lemma SFleb_trans x y z :
  is_finite x -> is_finite y -> is_finite z ->
  SFleb x y = true -> SFleb y z = true -> SFleb x z = true.
Proof.
  intros Hx Hy Hz. rewrite !SFleb_rank by done.
  destruct (float_rank x) as [[? ?] ?], (float_rank y) as [[? ?] ?],
    (float_rank z) as [[? ?] ?]. simpl. lia.
Qed.

(** ** The arithmetic of the score *)

Lemma count_quotient_bounded p c :
  0 < c -> - c <= p <= c -> pow_bounded 0 (count_quotient p c).
Proof.
  intros Hc Hp. unfold count_quotient.
  destruct c as [|my|my]; try lia.
  destruct p as [|mx|mx]; cbn [int_to_binary]; [done| |];
    apply SFdiv_bounded; intros a b Ha Hb Hab;
    replace b with a by lia; pose proof (pow2_gt0 a Ha); nia.
Qed.

Lemma int_truediv_ok p c :
  0 < c -> - c <= p <= c -> int_truediv p c = Ok (count_quotient p c).
Proof.
  intros Hc Hp. unfold int_truediv.
  replace (c =? 0) with false by (symmetry; apply Z.eqb_neq; lia).
  pose proof (count_quotient_bounded p c Hc Hp) as Hb.
  unfold count_quotient in *.
  by destruct (SFdiv prec emax (int_to_binary p) (int_to_binary c)).
Qed.

(** The quotients Python prints as 0.3333333333333333 (0x1.5555555555555p-2),
    0.6666666666666666 and -0.5, and the division by zero. *)
Example int_truediv_examples :
  int_truediv 1 3 = Ok (S754_finite false 6004799503160661 (-54)) /\
  int_truediv 2 3 = Ok (S754_finite false 6004799503160661 (-53)) /\
  int_truediv (-1) 2 = Ok float_neg_half /\
  int_truediv 1 0 = Raise (ZeroDivisionError "division by zero").
Proof. repeat split; vm_compute; reflexivity. Qed.

Lemma float_truediv_two x : float_truediv x float_two = Ok (halve x).
Proof. reflexivity. Qed.

Lemma halve_bounded x : pow_bounded 1 x -> pow_bounded 0 (halve x).
Proof.
  unfold halve, float_two.
  destruct x as [s| | |s m e]; cbn [pow_bounded]; try done.
  intros (_ & He & Hm). apply SFdiv_bounded. intros a b Ha Hb Hab.
  change (Z.pos 4503599627370496) with (2 ^ 52).
  rewrite <- pow2_split by lia.
  replace (52 + b) with ((1 - e) + a) by lia.
  rewrite pow2_split by lia. pose proof (pow2_gt0 a Ha). nia.
Qed.

Lemma len_split {A} `{HA : Countable A} (X Y : gset A) :
  len (X ∩ Y) + len (X ∖ Y) = len X.
Proof.
  unfold len. rewrite <- Nat2Z.inj_add, <- size_union by set_solver.
  do 2 f_equal. apply set_eq. intros x.
  destruct (decide (x ∈ Y)); set_solver.
Qed.

Lemma len_nonneg {A} `{HA : Countable A} (X : gset A) : 0 <= len X.
Proof. unfold len. lia. Qed.

Lemma len_pos {A} `{HA : Countable A} (X : gset A) : X <> ∅ -> 0 < len X.
Proof.
  intros HX. unfold len.
  assert (size X <> 0%nat); [|lia].
  intros Hz. by apply size_empty_iff, leibniz_equiv in Hz.
Qed.

(** The two quotients of the score are within [-1, 1]: matched and
    extraneous fields share out the concrete fields, matched and absent
    fields share out the required ones. *)
Lemma overall_term_range (F S : gset StandardField) :
  - len F <= len (F ∩ S) - len (F ∖ S) <= len F.
Proof.
  pose proof (len_split F S). pose proof (len_nonneg (F ∩ S)).
  pose proof (len_nonneg (F ∖ S)). lia.
Qed.

Lemma required_term_range (F R : gset StandardField) :
  - len R <= len (F ∩ R) - len (R ∖ F) <= len R.
Proof.
  pose proof (len_split R F) as Hs. pose proof (len_nonneg (R ∩ F)).
  pose proof (len_nonneg (R ∖ F)).
  replace (F ∩ R) with (R ∩ F) by set_solver. lia.
Qed.

Lemma spec_score_bounded F C : F <> ∅ -> pow_bounded 0 (spec_score F C).
Proof.
  intros HF. pose proof (len_pos F HF) as Hc. unfold spec_score.
  pose proof (overall_term_range F (StdC C)) as H1.
  pose proof (required_term_range F (StdR C)) as H2.
  pose proof (len_nonneg (StdR C)) as Htr.
  destruct (Z.eqb_spec (len (StdR C)) 0) as [Hz|Hnz].
  - apply halve_bounded, (pow_bounded_mono 0); [lia|].
    by apply count_quotient_bounded.
  - apply halve_bounded, SFadd_bounded; apply count_quotient_bounded; lia.
Qed.

Lemma _CalculateMatchScore_ok F C :
  F <> ∅ -> _CalculateMatchScore F C = Ok (spec_score F C).
Proof.
  intros HF. pose proof (len_pos F HF) as Hc.
  unfold _CalculateMatchScore, spec_score. fold (StdC C). fold (StdR C).
  pose proof (overall_term_range F (StdC C)) as H1.
  pose proof (required_term_range F (StdR C)) as H2.
  pose proof (len_nonneg (StdR C)) as Htr.
  replace (len F <=? 0) with false by (symmetry; apply Z.leb_gt; lia).
  destruct (Z.eqb_spec (len (StdR C)) 0) as [Hz|Hnz].
  - replace (len (StdR C) <=? 0) with true by (symmetry; apply Z.leb_le; lia).
    rewrite int_truediv_ok by lia. apply float_truediv_two.
  - replace (len (StdR C) <=? 0) with false by (symmetry; apply Z.leb_gt; lia).
    rewrite !int_truediv_ok by lia. apply float_truediv_two.
Qed.

Lemma _CalculateMatchScore_empty C :
  _CalculateMatchScore ∅ C =
    Raise (ValueError "Concrete field set cannot be empty.").
Proof. reflexivity. Qed.

(** ** The order of floats, as [sorted] uses it *)

Lemma float_lt_asym x y : float_lt x y = true -> float_lt y x = false.
Proof.
  unfold float_lt, SFltb. rewrite (SFcompare_antisym x y).
  by destruct (SFcompare x y) as [[]|].
Qed.

Lemma float_le_not_lt x y : SFleb x y = true -> float_lt y x = false.
Proof.
  unfold float_lt, SFltb, SFleb. rewrite (SFcompare_antisym x y).
  by destruct (SFcompare x y) as [[]|].
Qed.

Lemma float_not_lt_trans x y z :
  is_finite x -> is_finite y -> is_finite z ->
  float_lt y x = false -> float_lt z y = false -> float_lt z x = false.
Proof.
  intros Hx Hy Hz Hxy Hyz. apply float_le_not_lt.
  apply (SFleb_trans x y z); try done; by apply SFltb_false_SFleb.
Qed.

Lemma string_lt_asym a b : String.ltb a b = true -> String.ltb b a = false.
Proof.
  unfold String.ltb. rewrite (String.compare_antisym a b).
  by destruct (String.compare b a).
Qed.

(** ** [sorted] *)

Section sorted_facts.
Context {A K : Type} (lt : K -> K -> bool) (key : A -> K) (dom : K -> Prop).
Hypothesis lt_asym : forall a b, lt a b = true -> lt b a = false.
Hypothesis not_lt_trans : forall a b c,
  dom a -> dom b -> dom c ->
  lt b a = false -> lt c b = false -> lt c a = false.

Lemma insert_by_perm x l : insert_by lt key x l ≡ₚ x :: l.
Proof.
  induction l as [|y l IH]; simpl; [reflexivity|].
  destruct (lt (key y) (key x)); [|reflexivity].
  rewrite IH. apply Permutation_swap.
Qed.

Lemma sorted_perm l : sorted lt key l ≡ₚ l.
Proof.
  induction l as [|x l IH]; simpl; [reflexivity|].
  rewrite insert_by_perm. by rewrite IH.
Qed.

Lemma insert_by_front x l :
  Forall (fun y => lt (key y) (key x) = false) l ->
  insert_by lt key x l = x :: l.
Proof. destruct 1 as [|y l Hy _]; simpl; [done|]. by rewrite Hy. Qed.

Lemma insert_by_sorted x l :
  dom (key x) -> Forall (fun y => dom (key y)) l ->
  StronglySorted (fun a b => lt (key b) (key a) = false) l ->
  StronglySorted (fun a b => lt (key b) (key a) = false)
    (insert_by lt key x l).
Proof.
  intros Hx Hl Hs. induction Hs as [|y l Hs IH Hy]; simpl.
  - repeat constructor.
  - apply Forall_cons in Hl as [Hdy Hl].
    destruct (lt (key y) (key x)) eqn:Hlt.
    + constructor; [by apply IH|].
      rewrite insert_by_perm. constructor; [by apply lt_asym|done].
    + constructor; [by constructor|].
      constructor; [done|].
      rewrite Forall_forall in Hy, Hl. apply Forall_forall. intros z Hz.
      apply (not_lt_trans _ (key y)); auto.
Qed.

Lemma sorted_dom l :
  Forall (fun y => dom (key y)) l ->
  Forall (fun y => dom (key y)) (sorted lt key l).
Proof. intros Hl. by rewrite sorted_perm. Qed.

Lemma sorted_sorted l :
  Forall (fun y => dom (key y)) l ->
  StronglySorted (fun a b => lt (key b) (key a) = false) (sorted lt key l).
Proof.
  induction 1 as [|x l Hx Hl IH]; simpl; [constructor|].
  apply insert_by_sorted; [done|by apply sorted_dom|done].
Qed.

Lemma filter_insert_by (p : A -> bool) x l :
  dom (key x) -> Forall (fun y => dom (key y)) l ->
  StronglySorted (fun a b => lt (key b) (key a) = false) l ->
  List.filter p (insert_by lt key x l) =
    if p x then insert_by lt key x (List.filter p l) else List.filter p l.
Proof.
  intros Hx Hl Hs. induction Hs as [|y l Hs IH Hy]; simpl.
  - by destruct (p x).
  - apply Forall_cons in Hl as [Hdy Hl].
    destruct (lt (key y) (key x)) eqn:Hlt; simpl.
    + rewrite IH by done. destruct (p y), (p x); simpl; by rewrite ?Hlt.
    + destruct (p x); simpl; [|done].
      symmetry. apply insert_by_front.
      assert (Forall (fun z => lt (key z) (key x) = false) (y :: l)) as Hall.
      { constructor; [done|].
        rewrite Forall_forall in Hy, Hl. apply Forall_forall. intros z Hz.
        apply (not_lt_trans _ (key y)); auto. }
      rewrite Forall_forall in Hall. apply Forall_forall. intros z Hz.
      apply Hall. change (z ∈ List.filter p (y :: l)) in Hz.
      apply list_elem_of_In, filter_In in Hz as [Hz _].
      by apply list_elem_of_In.
Qed.

(** Filtering commutes with the stable sort. *)
Lemma filter_sorted (p : A -> bool) l :
  Forall (fun y => dom (key y)) l ->
  List.filter p (sorted lt key l) = sorted lt key (List.filter p l).
Proof.
  induction 1 as [|x l Hx Hl IH]; simpl; [done|].
  rewrite filter_insert_by by auto using sorted_dom, sorted_sorted.
  rewrite IH. by destruct (p x).
Qed.

End sorted_facts.

Lemma StronglySorted_list_filter {A} (R : A -> A -> Prop) (p : A -> bool) l :
  StronglySorted R l -> StronglySorted R (List.filter p l).
Proof.
  induction 1 as [|x l Hs IH Hx]; simpl; [constructor|].
  destruct (p x); [|done]. constructor; [done|].
  rewrite Forall_forall in Hx. apply Forall_forall. intros z Hz.
  apply Hx. apply list_elem_of_In, filter_In in Hz as [Hz _].
  by apply list_elem_of_In.
Qed.

Lemma StronglySorted_adjacent {A} (R : A -> A -> Prop) l :
  StronglySorted R l -> adjacent R l.
Proof.
  induction 1 as [|x l Hs IH Hx]; intros i a b Ha Hb; [done|].
  destruct i as [|i]; simpl in *.
  - injection Ha as <-. rewrite Forall_forall in Hx.
    apply Hx. by eapply list_elem_of_lookup_2.
  - by eapply IH.
Qed.

Lemma list_filter_sublist {A} (p : A -> bool) l : sublist (List.filter p l) l.
Proof.
  induction l as [|x l IH]; simpl; [constructor|].
  destruct (p x); by constructor.
Qed.

(** ** [mapM] in the [result] monad *)

Lemma mapM_result_total {A B} (f : A -> result B) (g : A -> B) l :
  (forall x, x ∈ l -> f x = Ok (g x)) -> mapM f l = Ok (map g l).
Proof.
  induction l as [|x l IH]; intros Hf; simpl; [done|].
  rewrite (Hf x) by left. simpl.
  rewrite IH by (intros y Hy; apply Hf; by right). done.
Qed.

Lemma mapM_result_raise {A B} (f : A -> result B) x l e :
  f x = Raise e -> mapM f (x :: l) = Raise e.
Proof. intros Hx. simpl. by rewrite Hx. Qed.

(** ** The order of strings *)

Lemma string_compare_le_trans a b c :
  String.compare a b <> Gt -> String.compare b c <> Gt ->
  String.compare a c <> Gt.
Proof.
  revert b c. induction a as [|x a IH]; intros [|y b] [|z c]; simpl; try done.
  unfold Ascii.compare.
  destruct (N.compare_spec (N_of_ascii x) (N_of_ascii y)),
    (N.compare_spec (N_of_ascii y) (N_of_ascii z)),
    (N.compare_spec (N_of_ascii x) (N_of_ascii z));
    try done; try (exfalso; lia). apply IH.
Qed.

Lemma string_ltb_false a b : String.ltb b a = false <-> String.compare a b <> Gt.
Proof.
  unfold String.ltb. rewrite (String.compare_antisym b a).
  destruct (String.compare a b); simpl; split; congruence.
Qed.

Lemma string_not_lt_trans a b c :
  String.ltb b a = false -> String.ltb c b = false -> String.ltb c a = false.
Proof. rewrite !string_ltb_false. apply string_compare_le_trans. Qed.

Lemma string_ltb_false_leb a b : String.ltb b a = false -> String.leb a b = true.
Proof.
  rewrite string_ltb_false. unfold String.leb.
  by destruct (String.compare a b).
Qed.

(** ** The match score *)

(** C1: for a non-empty concrete field set the score is the quantity of
    section 4.3: half of (ma - e) / c when no field is required, half of the
    sum of (ma - e) / c and (mr - a) / tr otherwise; the worked example
    scores 1.0 for {temperature, occupancy} and 0.0 for {temperature,
    pressure}. *)
Theorem C1_match_score_formula :
  (forall (F : gset StandardField) (C : gset EntityTypeField),
     F <> ∅ -> _CalculateMatchScore F C = Ok (spec_score F C)) /\
  _CalculateMatchScore (list_to_set temperature_occupancy) ROOM_fields
    = Ok float_one /\
  _CalculateMatchScore (list_to_set temperature_pressure) ROOM_fields
    = Ok (S754_zero false).
Proof.
  split; [apply _CalculateMatchScore_ok|].
  split; vm_compute; reflexivity.
Qed.

Lemma C1_match_score_formula_witness :
  list_to_set temperature_pressure <> (∅ : gset StandardField) /\
  _CalculateMatchScore (list_to_set temperature_pressure) ROOM_fields
    = Ok (spec_score (list_to_set temperature_pressure) ROOM_fields).
Proof.
  assert (list_to_set temperature_pressure <> (∅ : gset StandardField)) as H.
  { intros H. apply (f_equal size) in H. vm_compute in H. discriminate H. }
  split; [exact H|].
  exact (proj1 C1_match_score_formula _ ROOM_fields H).
Defined.

(** C2: for a non-empty concrete field set and any canonical field set the
    score is returned and lies between -1.0 and 1.0. *)
Theorem C2_score_range (F : gset StandardField) (C : gset EntityTypeField) :
  F <> ∅ ->
  exists s, _CalculateMatchScore F C = Ok s /\
            float_le float_neg_one s = true /\ float_le s float_one = true.
Proof.
  intros HF. exists (spec_score F C).
  split; [by apply _CalculateMatchScore_ok|].
  apply pow_bounded_unit_interval. by apply spec_score_bounded.
Qed.

Lemma C2_score_range_witness :
  list_to_set temperature_pressure <> (∅ : gset StandardField) /\
  exists s,
    _CalculateMatchScore (list_to_set temperature_pressure) ROOM_fields = Ok s /\
    float_le float_neg_one s = true /\ float_le s float_one = true.
Proof.
  assert (list_to_set temperature_pressure <> (∅ : gset StandardField)) as H.
  { intros H. apply (f_equal size) in H. vm_compute in H. discriminate H. }
  split; [exact H|].
  exact (C2_score_range _ ROOM_fields H).
Defined.

(** C6: an empty concrete field set fails with the ValueError that says so
    and yields no score; a non-empty one yields a score. *)
Theorem C6_empty_concrete_set :
  (forall C : gset EntityTypeField,
     _CalculateMatchScore ∅ C =
       Raise (ValueError "Concrete field set cannot be empty.")) /\
  (forall (F : gset StandardField) (C : gset EntityTypeField),
     F <> ∅ -> exists s, _CalculateMatchScore F C = Ok s).
Proof.
  split; [apply _CalculateMatchScore_empty|].
  intros F C HF. exists (spec_score F C). by apply _CalculateMatchScore_ok.
Qed.

Lemma C6_empty_concrete_set_witness :
  list_to_set temperature_occupancy <> (∅ : gset StandardField) /\
  exists s,
    _CalculateMatchScore (list_to_set temperature_occupancy) ROOM_fields = Ok s.
Proof.
  assert (list_to_set temperature_occupancy <> (∅ : gset StandardField)) as H.
  { intros H. apply (f_equal size) in H. vm_compute in H. discriminate H. }
  split; [exact H|].
  exact (proj2 C6_empty_concrete_set _ ROOM_fields H).
Defined.

(** ** The ranking *)

Lemma _CreateMatch_ok field_list entity_type :
  inherited_fields_expanded entity_type = true ->
  field_list <> [] ->
  _CreateMatch field_list entity_type =
    Ok (new_Match field_list entity_type (score_of field_list entity_type)).
Proof.
  intros He Hne. unfold _CreateMatch, GetAllFields, score_of. rewrite He.
  cbn [mbind result_bind].
  rewrite _CalculateMatchScore_ok; [done|].
  destruct field_list as [|x l]; [done|]. set_solver.
Qed.

Lemma _CreateMatch_empty entity_type :
  inherited_fields_expanded entity_type = true ->
  _CreateMatch [] entity_type =
    Raise (ValueError "Concrete field set cannot be empty.").
Proof. intros He. unfold _CreateMatch, GetAllFields. by rewrite He. Qed.

(** The first loop: its test answers for a type that is abstract or
    expanded, and fails for any other. *)
Lemma candidate_test_spec upper general_type et :
  candidate_test upper general_type et =
    if is_abstract et || inherited_fields_expanded et
    then Ok (is_candidate upper general_type et)
    else Raise type_not_expanded.
Proof.
  unfold candidate_test, is_candidate, GetAllFields.
  destruct (is_abstract et); [done|].
  destruct (inherited_fields_expanded et); [|done].
  cbn [orb mbind result_bind]. case_bool_decide; [done|].
  by destruct general_type.
Qed.

Lemma append_candidates_spec upper general_type types entity_type_list :
  append_candidates upper general_type types entity_type_list =
    if forallb (fun et => is_abstract et || inherited_fields_expanded et) types
    then Ok (entity_type_list
               ++ List.filter (is_candidate upper general_type) types)
    else Raise type_not_expanded.
Proof.
  revert entity_type_list.
  induction types as [|et types IH]; intros acc; cbn [append_candidates].
  - cbn. by rewrite app_nil_r.
  - rewrite candidate_test_spec. cbn [forallb List.filter].
    destruct (is_abstract et || inherited_fields_expanded et); [|done].
    cbn [mbind result_bind andb]. rewrite IH.
    destruct (forallb _ types); [|done].
    destruct (is_candidate upper general_type et); [|done].
    by rewrite <- app_assoc.
Qed.

Lemma append_namespaces_spec upper general_type tnss entity_type_list :
  append_namespaces upper general_type tnss entity_type_list =
    if forallb (fun et => is_abstract et || inherited_fields_expanded et)
         (flat_map (fun tns => dict_values (valid_types_map tns)) tnss)
    then Ok (entity_type_list
               ++ flat_map (fun tns =>
                              List.filter (is_candidate upper general_type)
                                (dict_values (valid_types_map tns))) tnss)
    else Raise type_not_expanded.
Proof.
  revert entity_type_list.
  induction tnss as [|tns tnss IH]; intros acc; cbn [append_namespaces flat_map].
  - cbn. by rewrite app_nil_r.
  - rewrite append_candidates_spec, forallb_app.
    destruct (forallb _ (dict_values (valid_types_map tns))); [|done].
    cbn [mbind result_bind andb]. rewrite IH.
    destruct (forallb _ _); [|done]. by rewrite <- app_assoc.
Qed.

Lemma candidate_types_expanded upper u general_type et :
  concrete_types_expanded u = true ->
  et ∈ candidate_types upper u general_type ->
  inherited_fields_expanded et = true.
Proof.
  unfold concrete_types_expanded, candidate_types, all_types.
  rewrite forallb_forall. intros Hex Het.
  apply list_elem_of_In, in_flat_map in Het as (tns & Htns & Het).
  apply filter_In in Het as [Het Hc].
  specialize (Hex et). rewrite in_flat_map in Hex.
  specialize (Hex ltac:(by exists tns)).
  unfold is_candidate in Hc. by destruct (is_abstract et).
Qed.

(** Over a universe with a concrete type that is not expanded the ranking
    fails in its first loop. *)
Lemma GetEntityTypesFromFields_unexpanded upper self field_list general_type
    best_fit :
  concrete_types_expanded (universe self) = false ->
  GetEntityTypesFromFields upper self field_list general_type best_fit =
    Raise type_not_expanded.
Proof.
  intros Hex. unfold GetEntityTypesFromFields.
  rewrite append_namespaces_spec.
  unfold concrete_types_expanded, all_types in Hex. by rewrite Hex.
Qed.

Lemma GetEntityTypesFromFields_expanded upper self field_list general_type
    best_fit :
  concrete_types_expanded (universe self) = true ->
  GetEntityTypesFromFields upper self field_list general_type best_fit =
    (match_list ← mapM (_CreateMatch field_list)
                    (candidate_types upper (universe self) general_type);
     let match_list_sorted := sorted float_lt GetMatchScore match_list in
     if best_fit
     then mret (List.filter
                  (fun m => float_gt (GetMatchScore m)
                              (match_score_threshold self))
                  match_list_sorted)
     else mret match_list_sorted).
Proof.
  intros Hex. unfold GetEntityTypesFromFields.
  rewrite append_namespaces_spec.
  unfold concrete_types_expanded, all_types in Hex. by rewrite Hex.
Qed.

Lemma GetEntityTypesFromFields_Ok_inv upper self field_list general_type
    best_fit matches :
  GetEntityTypesFromFields upper self field_list general_type best_fit
    = Ok matches ->
  concrete_types_expanded (universe self) = true.
Proof.
  destruct (concrete_types_expanded (universe self)) eqn:Hex; [done|].
  by rewrite GetEntityTypesFromFields_unexpanded.
Qed.

(** The ranking of a non-empty field list: every candidate is scored, the
    matches are sorted, the best-fit filter is applied last. *)
Lemma GetEntityTypesFromFields_ok upper self field_list general_type
    best_fit :
  concrete_types_expanded (universe self) = true ->
  field_list <> [] ->
  GetEntityTypesFromFields upper self field_list general_type best_fit =
    Ok (let ranked :=
          sorted float_lt GetMatchScore
            (map (fun et => new_Match field_list et (score_of field_list et))
                 (candidate_types upper (universe self) general_type)) in
        if best_fit
        then List.filter
               (fun m => float_gt (GetMatchScore m) (match_score_threshold self))
               ranked
        else ranked).
Proof.
  intros Hex Hne. rewrite GetEntityTypesFromFields_expanded by done.
  rewrite (mapM_result_total _
             (fun et => new_Match field_list et (score_of field_list et))).
  - by destruct best_fit.
  - intros et Het. apply _CreateMatch_ok; [|done].
    by apply (candidate_types_expanded upper (universe self) general_type).
Qed.

(** The ranking of the empty field list: nothing to rank, or the failure of
    the first candidate's score. *)
Lemma GetEntityTypesFromFields_empty upper self general_type best_fit :
  concrete_types_expanded (universe self) = true ->
  GetEntityTypesFromFields upper self [] general_type best_fit =
    match candidate_types upper (universe self) general_type with
    | [] => Ok []
    | _ :: _ => Raise (ValueError "Concrete field set cannot be empty.")
    end.
Proof.
  intros Hex. rewrite GetEntityTypesFromFields_expanded by done.
  pose proof (candidate_types_expanded upper (universe self) general_type)
    as Hc.
  destruct (candidate_types upper (universe self) general_type) as [|et l].
  - by destruct best_fit.
  - rewrite (mapM_result_raise _ et l _
               (_CreateMatch_empty et (Hc et Hex ltac:(left)))). done.
Qed.

Lemma score_of_finite field_list entity_type :
  field_list <> [] -> is_finite (score_of field_list entity_type).
Proof.
  intros Hne. apply (pow_bounded_finite 0), spec_score_bounded.
  destruct field_list as [|x l]; [done|]. set_solver.
Qed.

Lemma ranked_sorted field_list (types : list EntityType) :
  field_list <> [] ->
  StronglySorted
    (fun m1 m2 => float_le (GetMatchScore m1) (GetMatchScore m2) = true)
    (sorted float_lt GetMatchScore
       (map (fun et => new_Match field_list et (score_of field_list et)) types)).
Proof.
  intros Hne.
  assert (Forall (fun m => is_finite (GetMatchScore m))
            (map (fun et => new_Match field_list et (score_of field_list et))
                 types)) as Hfin.
  { apply Forall_forall. intros m Hm.
    apply list_elem_of_fmap in Hm as (et & -> & _). by apply score_of_finite. }
  pose proof (sorted_sorted float_lt GetMatchScore is_finite
                float_lt_asym float_not_lt_trans _ Hfin) as Hs.
  pose proof (sorted_dom float_lt GetMatchScore is_finite _ Hfin) as Hd.
  revert Hs Hd.
  generalize (sorted float_lt GetMatchScore
                (map (fun et => new_Match field_list et (score_of field_list et))
                     types)).
  intros l Hs. induction Hs as [|m l Hs IH Hm]; intros Hd; [constructor|].
  apply Forall_cons in Hd as [Hdm Hd].
  constructor; [by apply IH|].
  rewrite Forall_forall in Hm, Hd. apply Forall_forall. intros m' Hm'.
  apply SFltb_false_SFleb; auto.
Qed.

(** C3: the matches come back in ascending order of score: of two adjacent
    matches the earlier one's score is at most the later one's. *)
Theorem C3_ranking_ascending upper self field_list general_type best_fit
    matches :
  GetEntityTypesFromFields upper self field_list general_type best_fit
    = Ok matches ->
  adjacent
    (fun m1 m2 => float_le (GetMatchScore m1) (GetMatchScore m2) = true)
    matches.
Proof.
  intros H. pose proof (GetEntityTypesFromFields_Ok_inv _ _ _ _ _ _ H) as Hex.
  revert H. destruct field_list as [|x l] eqn:Hl.
  - rewrite GetEntityTypesFromFields_empty by done.
    destruct (candidate_types _ _ _); [|done].
    intros [= <-]. by intros i a b Ha.
  - rewrite GetEntityTypesFromFields_ok by done. intros [= <-].
    apply StronglySorted_adjacent.
    pose proof (ranked_sorted (x :: l)
                  (candidate_types upper (universe self) general_type)
                  ltac:(done)) as Hs.
    destruct best_fit; [|exact Hs].
    by apply StronglySorted_list_filter.
Qed.

Lemma C3_ranking_ascending_witness :
  exists matches,
    GetEntityTypesFromFields upper_ascii (__init__ campus_universe)
      temperature_occupancy None false = Ok matches /\
    length matches = 3%nat /\
    adjacent
      (fun m1 m2 => float_le (GetMatchScore m1) (GetMatchScore m2) = true)
      matches.
Proof.
  eexists. split; [vm_compute; reflexivity|]. split; [reflexivity|].
  apply (C3_ranking_ascending upper_ascii (__init__ campus_universe)
           temperature_occupancy None false).
  vm_compute. reflexivity.
Defined.

Lemma elem_of_filter_bool {A} (p : A -> bool) (l : list A) x :
  x ∈ List.filter p l <-> x ∈ l /\ p x = true.
Proof. rewrite !list_elem_of_In. apply filter_In. Qed.

(** C4, as the code has it: with best_fit the ranking keeps, in order,
    exactly the matches whose score exceeds the threshold, a sublist that
    need not be a proper one; the threshold of a new wrapper is -0.5. *)
Theorem C4_best_fit_filter upper self field_list general_type :
  GetEntityTypesFromFields upper self field_list general_type true =
    (List.filter
       (fun m => float_gt (GetMatchScore m) (match_score_threshold self))
     <$> GetEntityTypesFromFields upper self field_list general_type false) /\
  (forall all best,
     GetEntityTypesFromFields upper self field_list general_type false
       = Ok all ->
     GetEntityTypesFromFields upper self field_list general_type true
       = Ok best ->
     sublist best all /\
     forall m, m ∈ best <->
       m ∈ all /\
       float_gt (GetMatchScore m) (match_score_threshold self) = true) /\
  (forall u, match_score_threshold (__init__ u) = float_neg_half).
Proof.
  assert (GetEntityTypesFromFields upper self field_list general_type true =
    (List.filter
       (fun m => float_gt (GetMatchScore m) (match_score_threshold self))
     <$> GetEntityTypesFromFields upper self field_list general_type false))
    as Heq.
  { destruct (concrete_types_expanded (universe self)) eqn:Hex;
      [|by rewrite !GetEntityTypesFromFields_unexpanded].
    destruct field_list as [|x l].
    - rewrite !GetEntityTypesFromFields_empty by done.
      by destruct (candidate_types _ _ _).
    - by rewrite !GetEntityTypesFromFields_ok. }
  split; [exact Heq|]. split; [|done].
  intros all best Hall. rewrite Heq, Hall. intros [= <-].
  split; [apply list_filter_sublist|]. intros m.
  apply (elem_of_filter_bool (fun m => float_gt (GetMatchScore m) (match_score_threshold self))).
Qed.

Lemma C4_best_fit_filter_witness :
  exists all best,
    GetEntityTypesFromFields upper_ascii (__init__ campus_universe)
      temperature_occupancy None false = Ok all /\
    GetEntityTypesFromFields upper_ascii (__init__ campus_universe)
      temperature_occupancy None true = Ok best /\
    length all = 3%nat /\ length best = 2%nat /\ sublist best all.
Proof.
  eexists. eexists.
  split; [vm_compute; reflexivity|]. split; [vm_compute; reflexivity|].
  split; [reflexivity|]. split; [reflexivity|].
  apply (proj1 (proj2 (C4_best_fit_filter upper_ascii
                         (__init__ campus_universe)
                         temperature_occupancy None)) _ _);
    vm_compute; reflexivity.
Defined.

(** C4 as stated fails: when every match is above the threshold, best_fit
    returns the whole list, which is no proper part of itself.  No tag is
    given, so [str.upper] is not called: the claim fails whatever it does. *)
Lemma C4_strict_subset_counterexample :
  ~ (exists upper,
       forall all best,
         GetEntityTypesFromFields upper (__init__ example_universe)
           temperature_occupancy None false = Ok all ->
         GetEntityTypesFromFields upper (__init__ example_universe)
           temperature_occupancy None true = Ok best ->
         strict_sublist best all).
Proof.
  intros [upper H].
  destruct (H [new_Match temperature_occupancy ROOM float_one]
              [new_Match temperature_occupancy ROOM float_one]) as [_ Hne].
  - vm_compute. reflexivity.
  - vm_compute. reflexivity.
  - by apply Hne.
Qed.

Lemma insert_by_map {A B K} (lt : K -> K -> bool) (key : B -> K)
    (f : A -> B) x l :
  insert_by lt key (f x) (map f l) =
    map f (insert_by lt (fun a => key (f a)) x l).
Proof.
  induction l as [|y l IH]; simpl; [done|].
  destruct (lt (key (f y)) (key (f x))); simpl; by rewrite ?IH.
Qed.

Lemma sorted_map {A B K} (lt : K -> K -> bool) (key : B -> K) (f : A -> B) l :
  sorted lt key (map f l) = map f (sorted lt (fun a => key (f a)) l).
Proof.
  induction l as [|x l IH]; simpl; [done|].
  change (foldr (insert_by lt key) [] (map f l)) with (sorted lt key (map f l)).
  by rewrite IH, insert_by_map.
Qed.

Lemma list_filter_map {A B} (p : B -> bool) (f : A -> B) l :
  List.filter p (map f l) = map f (List.filter (fun a => p (f a)) l).
Proof.
  induction l as [|x l IH]; simpl; [done|].
  destruct (p (f x)); simpl; by rewrite IH.
Qed.

Lemma ranking_outcome_ok upper self field_list general_type best_fit :
  concrete_types_expanded (universe self) = true ->
  field_list <> [] ->
  ranking_outcome
    (GetEntityTypesFromFields upper self field_list general_type best_fit) =
    Ok (let ranked :=
          sorted float_lt (score_of field_list)
            (candidate_types upper (universe self) general_type) in
        map (fun et => (et, score_of field_list et))
          (if best_fit
           then List.filter
                  (fun et => float_gt (score_of field_list et)
                               (match_score_threshold self))
                  ranked
           else ranked)).
Proof.
  intros Hex Hne. rewrite GetEntityTypesFromFields_ok by done.
  unfold ranking_outcome. cbn [fmap result_fmap]. f_equal.
  rewrite sorted_map. cbn [GetMatchScore].
  destruct best_fit; [rewrite list_filter_map|]; by rewrite map_map.
Qed.

(** C10: two field lists with the same distinct fields give every candidate
    the same score, hence the same ranking of the types. *)
Theorem C10_field_list_as_set upper self fl1 fl2 general_type best_fit :
  (forall x, x ∈ fl1 <-> x ∈ fl2) ->
  ranking_outcome
    (GetEntityTypesFromFields upper self fl1 general_type best_fit) =
  ranking_outcome
    (GetEntityTypesFromFields upper self fl2 general_type best_fit).
Proof.
  intros Hsame.
  destruct (concrete_types_expanded (universe self)) eqn:Hex;
    [|by rewrite !GetEntityTypesFromFields_unexpanded].
  destruct fl1 as [|x1 l1], fl2 as [|x2 l2].
  - done.
  - exfalso. by apply (not_elem_of_nil x2), Hsame; left.
  - exfalso. by apply (not_elem_of_nil x1), Hsame; left.
  - rewrite !ranking_outcome_ok by done.
    assert (score_of (x1 :: l1) = score_of (x2 :: l2)) as ->; [|done].
    unfold score_of.
    by replace (list_to_set (x1 :: l1) : gset StandardField)
      with (list_to_set (x2 :: l2) : gset StandardField) by set_solver.
Qed.

Lemma C10_field_list_as_set_witness :
  (forall x, x ∈ temperature_occupancy <->
             x ∈ new_StandardField "" "occupancy" :: temperature_occupancy) /\
  ranking_outcome
    (GetEntityTypesFromFields upper_ascii (__init__ campus_universe)
       temperature_occupancy None false) =
  ranking_outcome
    (GetEntityTypesFromFields upper_ascii (__init__ campus_universe)
       (new_StandardField "" "occupancy" :: temperature_occupancy) None false).
Proof.
  assert (forall x, x ∈ temperature_occupancy <->
             x ∈ new_StandardField "" "occupancy" :: temperature_occupancy)
    as H.
  { intros x. unfold temperature_occupancy. set_solver. }
  split; [exact H|].
  exact (C10_field_list_as_set upper_ascii (__init__ campus_universe) _ _
           None false H).
Defined.

(** ** The candidates of the ranking *)

Lemma is_candidate_spec upper general_type et :
  is_candidate upper general_type et = true <->
  is_abstract et = false /\ _all_fields et <> [] /\
  match general_type with
  | None => True
  | Some g => upper g ∈ unqualified_parent_names et
  end.
Proof.
  unfold is_candidate.
  destruct (is_abstract et); simpl; [naive_solver|].
  case_bool_decide as Hf; simpl; [naive_solver|].
  destruct general_type as [g|]; [|naive_solver].
  rewrite existsb_exists. split.
  - intros (p & Hp & Heq). apply String.eqb_eq in Heq as <-.
    by rewrite list_elem_of_In.
  - intros (_ & _ & Hin). exists (upper g).
    rewrite <- list_elem_of_In. split; [done|apply String.eqb_refl].
Qed.

Lemma elem_of_candidate_types upper u general_type et :
  et ∈ candidate_types upper u general_type <->
  et ∈ all_types u /\ is_candidate upper general_type et = true.
Proof.
  unfold candidate_types, all_types.
  rewrite !list_elem_of_In, !in_flat_map. split.
  - intros (tns & Htns & Het). apply filter_In in Het as [Het Hc].
    split; [|done]. by exists tns.
  - intros [(tns & Htns & Het) Hc]. exists tns. split; [done|].
    by apply filter_In.
Qed.

Lemma candidate_types_filter upper u general_type :
  candidate_types upper u general_type =
    List.filter (is_candidate upper general_type) (all_types u).
Proof.
  unfold candidate_types, all_types.
  induction (GetEntityTypeNamespaces u) as [|tns tnss IH]; [done|].
  cbn [flat_map]. by rewrite List.filter_app, IH.
Qed.

(** C7, as the code has it, for whatever [str.upper] does to a tag.  The
    first loop of the ranking ends exactly over a universe whose concrete
    types are expanded.  When it ends, the list it built holds, in
    iteration order, the types of the universe that are not abstract, have
    fields and, with a tag, have the upper-cased tag among their parent
    tags; the parent tags are compared as they are stored, so this is a
    match regardless of case only when they are in upper case.  The matches
    returned without best_fit are about exactly the types of that list. *)
Theorem C7_candidate_types upper self field_list general_type :
  (concrete_types_expanded (universe self) = true <->
   exists entity_type_list,
     append_namespaces upper general_type
       (GetEntityTypeNamespaces (universe self)) [] = Ok entity_type_list) /\
  (forall entity_type_list,
     append_namespaces upper general_type
       (GetEntityTypeNamespaces (universe self)) [] = Ok entity_type_list ->
     entity_type_list = candidate_types upper (universe self) general_type /\
     (forall et,
        et ∈ entity_type_list <->
        et ∈ all_types (universe self) /\
        is_abstract et = false /\
        (exists all_fields,
           GetAllFields et = Ok all_fields /\ all_fields <> []) /\
        match general_type with
        | None => True
        | Some g => upper g ∈ unqualified_parent_names et
        end) /\
     (forall matches,
        GetEntityTypesFromFields upper self field_list general_type false
          = Ok matches ->
        map GetMatchEntityType matches ≡ₚ entity_type_list)) /\
  (forall g et,
     (forall p, p ∈ unqualified_parent_names et -> upper p = p) ->
     upper g ∈ unqualified_parent_names et <->
     has_parent_tag_nocase upper g et).
Proof.
  assert (forall l,
            append_namespaces upper general_type
              (GetEntityTypeNamespaces (universe self)) [] = Ok l ->
            concrete_types_expanded (universe self) = true) as Hends.
  { intros l Hl. rewrite append_namespaces_spec in Hl.
    unfold concrete_types_expanded, all_types.
    by destruct (forallb _ _). }
  split; [|split].
  - split; [|intros [l Hl]; by apply (Hends l)].
    intros Hex. rewrite append_namespaces_spec.
    unfold concrete_types_expanded, all_types in Hex. rewrite Hex. eauto.
  - intros l Hl. pose proof (Hends l Hl) as Hex.
    assert (l = candidate_types upper (universe self) general_type) as ->.
    { rewrite append_namespaces_spec in Hl.
      unfold concrete_types_expanded, all_types in Hex. rewrite Hex in Hl.
      by injection Hl as <-. }
    split; [done|]. split.
    + intros et. rewrite elem_of_candidate_types, is_candidate_spec. split.
      * intros [Hin (Ha & Hf & Ht)]. repeat split; try done.
        exists (_all_fields et). split; [|done].
        unfold GetAllFields.
        rewrite (candidate_types_expanded upper (universe self) general_type);
          [done|done|].
        by apply elem_of_candidate_types, conj, is_candidate_spec.
      * intros (Hin & Ha & (fields & Hq & Hf) & Ht). repeat split; try done.
        unfold GetAllFields in Hq.
        destruct (inherited_fields_expanded et); [|done].
        by injection Hq as ->.
    + intros matches. destruct field_list as [|x fl].
      * rewrite GetEntityTypesFromFields_empty by done.
        destruct (candidate_types _ _ _); [|done]. by intros [= <-].
      * rewrite GetEntityTypesFromFields_ok by done. intros [= <-].
        rewrite sorted_perm, map_map. simpl. by rewrite map_id.
  - intros g et Hup. unfold has_parent_tag_nocase. split.
    + intros Hin. exists (upper g). split; [done|]. by rewrite (Hup _ Hin).
    + intros (p & Hp & Heq). rewrite <- Heq, (Hup _ Hp). done.
Qed.

Lemma C7_candidate_types_witness :
  concrete_types_expanded campus_universe = true /\
  (forall p, p ∈ unqualified_parent_names ROOM -> upper_ascii p = p) /\
  append_namespaces upper_ascii (Some "space")
    (GetEntityTypeNamespaces campus_universe) [] = Ok [ROOM] /\
  (upper_ascii "space" ∈ unqualified_parent_names ROOM <->
   has_parent_tag_nocase upper_ascii "space" ROOM) /\
  exists matches,
    GetEntityTypesFromFields upper_ascii (__init__ campus_universe)
      temperature_occupancy (Some "space") false = Ok matches /\
    map GetMatchEntityType matches ≡ₚ [ROOM].
Proof.
  assert (forall p, p ∈ unqualified_parent_names ROOM -> upper_ascii p = p)
    as H.
  { intros p Hp. apply list_elem_of_singleton in Hp as ->. reflexivity. }
  assert (append_namespaces upper_ascii (Some "space")
            (GetEntityTypeNamespaces (universe (__init__ campus_universe))) []
          = Ok [ROOM]) as Hl by (vm_compute; reflexivity).
  split; [reflexivity|]. split; [exact H|]. split; [exact Hl|]. split.
  - exact (proj2 (proj2 (C7_candidate_types upper_ascii
                           (__init__ campus_universe)
                           temperature_occupancy (Some "space")))
             "space" ROOM H).
  - eexists. split; [vm_compute; reflexivity|].
    apply (proj2 (proj2 (proj1 (proj2 (C7_candidate_types upper_ascii
                                         (__init__ campus_universe)
                                         temperature_occupancy (Some "space")))
                           [ROOM] Hl))).
    vm_compute. reflexivity.
Defined.

(** C7 as stated fails: a parent tag kept in lower case is never matched,
    although the tag appears among the parent tags when case is ignored.
    For the tag vav, which [str.upper] makes VAV, the ranking scores no
    type, while LOWER is concrete, has fields and has the parent tag vav. *)
Lemma C7_case_insensitive_counterexample :
  ~ (exists upper,
       upper "vav" = "VAV" /\
       forall matches,
         GetEntityTypesFromFields upper (__init__ campus_universe)
           temperature_only (Some "vav") false = Ok matches ->
         forall et,
           et ∈ map GetMatchEntityType matches <->
           et ∈ all_types campus_universe /\
           is_abstract et = false /\
           (exists all_fields,
              GetAllFields et = Ok all_fields /\ all_fields <> []) /\
           has_parent_tag_nocase upper "vav" et).
Proof.
  intros (upper & Hup & H).
  assert (GetEntityTypesFromFields upper (__init__ campus_universe)
            temperature_only (Some "vav") false = Ok []) as Hrun.
  { rewrite GetEntityTypesFromFields_ok by done.
    unfold candidate_types, is_candidate. cbn. rewrite Hup. reflexivity. }
  destruct (H [] Hrun LOWER) as [_ Hin].
  assert (LOWER ∈ map GetMatchEntityType []) as Hno.
  { apply Hin. split; [|split; [done|split]].
    - vm_compute. do 2 right. left.
    - by exists (_all_fields LOWER).
    - exists "vav". split; [left|reflexivity]. }
  by apply not_elem_of_nil in Hno.
Qed.

(** ** The field list of a type *)

(** What [GetFieldsForTypeName] returns for a resolved, expanded type. *)
Lemma GetFieldsForTypeName_ok self namespace_name entity_type_name
    required_only entity_type :
  GetEntityType (entity_type_universe (universe self)) namespace_name
    entity_type_name = Some entity_type ->
  inherited_fields_expanded entity_type = true ->
  GetFieldsForTypeName self namespace_name entity_type_name required_only =
    Ok (sorted String.ltb (fun x : EntityTypeField => GetStandardFieldName x)
          (if required_only
           then List.filter (fun field => negb (IsOptional field))
                  (to_entity_type_fields (_all_fields entity_type))
           else to_entity_type_fields (_all_fields entity_type))).
Proof.
  intros Hr He. unfold GetFieldsForTypeName, GetAllFields. by rewrite Hr, He.
Qed.

Lemma GetFieldsForTypeName_inv self namespace_name entity_type_name
    required_only fields :
  GetFieldsForTypeName self namespace_name entity_type_name required_only
    = Ok fields ->
  exists entity_type,
    GetEntityType (entity_type_universe (universe self)) namespace_name
      entity_type_name = Some entity_type /\
    inherited_fields_expanded entity_type = true.
Proof.
  unfold GetFieldsForTypeName.
  destruct (GetEntityType _ _ _) as [et|] eqn:Hr;
    [|by destruct (String.eqb _ _)].
  destruct (inherited_fields_expanded et) eqn:He; [|done].
  intros _. by exists et.
Qed.

Lemma sorted_by_name (l : list EntityTypeField) :
  StronglySorted
    (fun x y : EntityTypeField =>
       String.leb (GetStandardFieldName x) (GetStandardFieldName y) = true)
    (sorted String.ltb (fun x : EntityTypeField => GetStandardFieldName x) l).
Proof.
  pose proof (sorted_sorted String.ltb
                (fun x : EntityTypeField => GetStandardFieldName x)
                (fun _ => True) string_lt_asym
                (fun a b c _ _ _ => string_not_lt_trans a b c) l) as Hs.
  specialize (Hs ltac:(by apply Forall_forall)).
  induction Hs as [|x k Hs IH Hx]; constructor; [done|].
  eapply Forall_impl; [exact Hx|]. intros y. apply string_ltb_false_leb.
Qed.

(** C5, as the code has it: the fields come back in ascending order of
    their names; the namespace takes no part in the order. *)
Theorem C5_fields_sorted_by_name self namespace_name entity_type_name
    required_only fields :
  GetFieldsForTypeName self namespace_name entity_type_name required_only
    = Ok fields ->
  adjacent
    (fun x y : EntityTypeField =>
       String.leb (GetStandardFieldName x) (GetStandardFieldName y) = true)
    fields.
Proof.
  intros H.
  destruct (GetFieldsForTypeName_inv _ _ _ _ _ H) as (et & Hr & He).
  rewrite (GetFieldsForTypeName_ok _ _ _ _ et Hr He) in H.
  injection H as <-. apply StronglySorted_adjacent, sorted_by_name.
Qed.

Lemma C5_fields_sorted_by_name_witness :
  exists fields,
    GetFieldsForTypeName (__init__ campus_universe) "FACILITIES" "ROOM" false
      = Ok fields /\
    map (fun x : EntityTypeField => GetStandardFieldName x) fields
      = ["humidity"; "occupancy"; "temperature"] /\
    adjacent
      (fun x y : EntityTypeField =>
         String.leb (GetStandardFieldName x) (GetStandardFieldName y) = true)
      fields.
Proof.
  eexists. split; [vm_compute; reflexivity|]. split; [reflexivity|].
  apply (C5_fields_sorted_by_name (__init__ campus_universe)
           "FACILITIES" "ROOM" false).
  vm_compute. reflexivity.
Defined.

(** C5 as stated fails: fields of two namespaces come back by name, against
    the order of the pairs (namespace, name). *)
Lemma C5_qualified_order_counterexample :
  ~ (forall fields,
       GetFieldsForTypeName (__init__ campus_universe) "FACILITIES" "MIXED"
         false = Ok fields ->
       adjacent (fun x y : EntityTypeField => qualified_le x y = true) fields).
Proof.
  intros H.
  specialize (H [new_EntityTypeField "HVAC" "alarm" false "";
                 new_EntityTypeField "ELEC" "beacon" false ""]).
  specialize (H ltac:(vm_compute; reflexivity) 0%nat _ _ eq_refl eq_refl).
  vm_compute in H. discriminate H.
Qed.

Lemma string_app_inv_head (s t1 t2 : string) :
  s +:+ t1 = s +:+ t2 -> t1 = t2.
Proof. induction s as [|c s IH]; simpl; [done|]. intros [= H]. auto. Qed.

Lemma undefined_msgs_differ entity_type_name namespace_name :
  undefined_global_msg entity_type_name <>
  undefined_in_namespace_msg entity_type_name namespace_name.
Proof.
  unfold undefined_global_msg, undefined_in_namespace_msg. intros H.
  apply string_app_inv_head, string_app_inv_head in H.
  simpl in H. discriminate H.
Qed.

(** C8: a resolved type whose inherited fields are not expanded makes the
    query fail with the exception that says so, never with a field list; an
    unresolved type makes it fail with a ValueError whose message names the
    global namespace when no namespace was given and the given namespace
    otherwise, and the two messages differ. *)
Theorem C8_field_query_failures self namespace_name entity_type_name
    required_only :
  (forall entity_type,
     GetEntityType (entity_type_universe (universe self)) namespace_name
       entity_type_name = Some entity_type ->
     inherited_fields_expanded entity_type = false ->
     GetFieldsForTypeName self namespace_name entity_type_name required_only
       = Raise (Exception not_expanded_msg)) /\
  (GetEntityType (entity_type_universe (universe self)) namespace_name
     entity_type_name = None ->
   GetFieldsForTypeName self namespace_name entity_type_name required_only =
     Raise (ValueError
              (if decide (namespace_name = "")
               then undefined_global_msg entity_type_name
               else undefined_in_namespace_msg entity_type_name
                      namespace_name))) /\
  undefined_global_msg entity_type_name <>
    undefined_in_namespace_msg entity_type_name namespace_name.
Proof.
  split; [|split; [|apply undefined_msgs_differ]].
  - intros et Hr He. unfold GetFieldsForTypeName. by rewrite Hr, He.
  - intros Hr. unfold GetFieldsForTypeName. rewrite Hr.
    destruct (String.eqb_spec namespace_name ""); by case_decide.
Qed.

Lemma C8_field_query_failures_witness :
  (GetEntityType (entity_type_universe draft_universe) "FACILITIES" "DRAFT"
     = Some DRAFT /\
   inherited_fields_expanded DRAFT = false /\
   GetFieldsForTypeName (__init__ draft_universe) "FACILITIES" "DRAFT" false
     = Raise (Exception not_expanded_msg)) /\
  (GetEntityType (entity_type_universe draft_universe) "" "DRAFT" = None /\
   GetFieldsForTypeName (__init__ draft_universe) "" "DRAFT" false
     = Raise (ValueError (undefined_global_msg "DRAFT"))).
Proof.
  split.
  - split; [reflexivity|]. split; [reflexivity|].
    exact (proj1 (C8_field_query_failures (__init__ draft_universe)
                    "FACILITIES" "DRAFT" false) DRAFT eq_refl eq_refl).
  - split; [reflexivity|].
    exact (proj1 (proj2 (C8_field_query_failures (__init__ draft_universe)
                           "" "DRAFT" false)) eq_refl).
Defined.

(** C9: when both queries succeed, the required-only list is the list of all
    fields with the optional ones taken out, in the same order. *)
Theorem C9_required_filter self namespace_name entity_type_name all required :
  GetFieldsForTypeName self namespace_name entity_type_name false = Ok all ->
  GetFieldsForTypeName self namespace_name entity_type_name true
    = Ok required ->
  required = List.filter (fun field => negb (IsOptional field)) all.
Proof.
  intros Hall Hreq.
  destruct (GetFieldsForTypeName_inv _ _ _ _ _ Hall) as (et & Hr & He).
  rewrite (GetFieldsForTypeName_ok _ _ _ _ et Hr He) in Hall.
  rewrite (GetFieldsForTypeName_ok _ _ _ _ et Hr He) in Hreq.
  injection Hall as <-. injection Hreq as <-.
  symmetry.
  apply (filter_sorted String.ltb
           (fun x : EntityTypeField => GetStandardFieldName x)
           (fun _ => True) string_lt_asym
           (fun a b c _ _ _ => string_not_lt_trans a b c)).
  by apply Forall_forall.
Qed.

Lemma C9_required_filter_witness :
  exists all required,
    GetFieldsForTypeName (__init__ campus_universe) "FACILITIES" "ROOM" false
      = Ok all /\
    GetFieldsForTypeName (__init__ campus_universe) "FACILITIES" "ROOM" true
      = Ok required /\
    length all = 3%nat /\ length required = 2%nat /\
    required = List.filter (fun field => negb (IsOptional field)) all.
Proof.
  eexists. eexists.
  split; [vm_compute; reflexivity|]. split; [vm_compute; reflexivity|].
  split; [reflexivity|]. split; [reflexivity|].
  apply (C9_required_filter (__init__ campus_universe) "FACILITIES" "ROOM");
    vm_compute; reflexivity.
Defined.

(** * Further properties of the code *)

(** ** Exact quotients and signs *)

Lemma SFdiv_same sx sy m :
  SFdiv prec emax (S754_finite sx m 0) (S754_finite sy m 0) =
    S754_finite (xorb sx sy) 4503599627370496 (-52).
Proof.
  unfold SFdiv. rewrite SFdiv_core_binary_eq.
  replace (Zdigits2 (Z.pos m) + 0 - (Zdigits2 (Z.pos m) + 0)) with 0 by lia.
  change (fexp prec emax 0) with (-53).
  change (Z.min (-53) (0 - 0)) with (-53). change (0 - 0 - -53) with 53.
  rewrite (Z.mul_comm (Z.pos m)), Z.div_mul, Z.mod_mul by lia.
  rewrite new_location_exact by done.
  destruct (xorb sx sy); vm_compute; reflexivity.
Qed.

Lemma count_quotient_same c : 0 < c -> count_quotient c c = float_one.
Proof.
  intros Hc. destruct c as [|m|m]; try lia.
  unfold count_quotient. cbn [int_to_binary]. apply SFdiv_same.
Qed.

Lemma count_quotient_opp c : 0 < c -> count_quotient (- c) c = float_neg_one.
Proof.
  intros Hc. destruct c as [|m|m]; try lia.
  unfold count_quotient. cbn [int_to_binary Z.opp]. apply SFdiv_same.
Qed.

Lemma binary_round_aux_sign s m e l s' m' e' :
  binary_round_aux prec emax s m e l = S754_finite s' m' e' -> s' = s.
Proof.
  unfold binary_round_aux.
  destruct (shr_fexp prec emax m e l) as [y1 e1].
  destruct (shr_fexp prec emax _ e1 loc_Exact) as [y2 e2].
  destruct (shr_m y2); [done| |done].
  destruct (e2 <=? emax - prec); [|done]. by intros [= <- _ _].
Qed.

Lemma binary_round_sign s m e s' m' e' :
  binary_round prec emax s m e = S754_finite s' m' e' -> s' = s.
Proof.
  unfold binary_round.
  destruct (shl_align m e _) as [mz ez]. apply binary_round_aux_sign.
Qed.

Lemma float_one_bounded : pow_bounded 0 float_one.
Proof. unfold float_one. cbn [pow_bounded]. split; [|split]; by vm_compute. Qed.

(** Adding 1.0 to a float of magnitude at most 1 gives no negative float. *)
Lemma SFadd_one_nonneg x :
  pow_bounded 0 x -> float_nonneg (float_add x float_one).
Proof.
  intros Hx.
  pose proof (SFadd_bounded x float_one Hx float_one_bounded) as Hb.
  unfold float_add. revert Hb. unfold float_one.
  destruct x as [sx| | |sx mx ex]; try done.
  cbn [pow_bounded] in Hx. destruct Hx as (_ & Hex & Hmx).
  cbn [SFadd]. set (ez := Z.min ex (-52)).
  destruct (shl_align_spec mx ex ez) as [Hx _].
  destruct (shl_align_spec 4503599627370496 (-52) ez) as [Hy _].
  replace (Z.min ex ez) with ez in Hx by lia.
  replace (Z.min (-52) ez) with ez in Hy by lia.
  set (ax := Z.pos (fst (shl_align mx ex ez))) in *.
  set (ay := Z.pos (fst (shl_align 4503599627370496 (-52) ez))) in *.
  assert (ax <= ay) as Hle.
  { rewrite Hx, Hy. change (Z.pos 4503599627370496) with (2 ^ 52).
    rewrite <- pow2_split by lia.
    replace (52 + (-52 - ez)) with ((0 - ex) + (ex - ez)) by lia.
    rewrite pow2_split by lia. pose proof (pow2_gt0 (ex - ez) ltac:(lia)). nia. }
  assert (0 < ax) by (subst ax; lia).
  unfold binary_normalize.
  destruct (cond_Zopp sx ax + cond_Zopp false ay) as [|m|m] eqn:Hsum.
  - done.
  - destruct (binary_round prec emax false m ez) as [| | |s' m' e'] eqn:Hr;
      try done.
    intros _. by apply binary_round_sign in Hr.
  - exfalso. destruct sx; simpl in Hsum; lia.
Qed.

Lemma halve_nonneg x : pow_bounded 1 x -> float_nonneg x -> float_nonneg (halve x).
Proof.
  intros Hb Hn. pose proof (halve_bounded x Hb) as Hh. revert Hh.
  unfold halve, float_two.
  destruct x as [s| | |s m e]; try done.
  cbn [float_nonneg] in Hn. subst s. cbn [SFdiv].
  destruct (SFdiv_core_binary prec emax (Z.pos m) e _ _) as [[mz ez] lz].
  destruct (binary_round_aux prec emax _ mz ez lz) as [| | |s' m' e'] eqn:Hr;
    try done.
  intros _. by apply binary_round_aux_sign in Hr.
Qed.

Lemma float_nonneg_ge_zero x : float_nonneg x -> float_le float_zero x = true.
Proof. destruct x as [s| | |s m e]; try done. by intros ->. Qed.

Lemma float_nonneg_gt_neg_half x :
  float_nonneg x -> float_gt x float_neg_half = true.
Proof. destruct x as [s| | |s m e]; try done. by intros ->. Qed.

(** The quotient of two finite floats with [|x| <= 2 ^ k * |y|] rounds to a
    float of magnitude at most [2 ^ k]. *)
Theorem SFdiv_bounded_pow k sx mx ex sy my ey :
  -1074 <= k <= 1023 ->
  (forall a b, 0 <= a -> 0 <= b -> a - b = ex - ey - k ->
     Z.pos mx * 2 ^ a <= Z.pos my * 2 ^ b) ->
  pow_bounded k (SFdiv prec emax (S754_finite sx mx ex) (S754_finite sy my ey)).
Proof.
  intros Hk H. unfold SFdiv. rewrite SFdiv_core_binary_eq.
  set (d1 := Zdigits2 (Z.pos mx)). set (d2 := Zdigits2 (Z.pos my)).
  set (e' := Z.min (fexp prec emax (d1 + ex - (d2 + ey))) (ex - ey)).
  set (s := ex - ey - e').
  assert (Hs : 0 <= s) by (subst s e'; lia).
  assert (HD : d1 + ex - (d2 + ey) <= k).
  { pose proof (H (Z.max (ex - ey - k) 0) (Z.max (k - (ex - ey)) 0)
                  ltac:(lia) ltac:(lia) ltac:(lia)) as Hab.
    pose proof (Zdigits2_lower (Z.pos mx) ltac:(lia)) as Hlo. fold d1 in Hlo.
    pose proof (Zdigits2_upper (Z.pos my) ltac:(lia)) as Hup. fold d2 in Hup.
    assert (0 < d1) by (apply (Zdigits2_gt 0); simpl; lia).
    assert (0 < d2) by (apply (Zdigits2_gt 0); simpl; lia).
    pose proof (pow2_gt0 (Z.max (ex - ey - k) 0) ltac:(lia)).
    pose proof (pow2_gt0 (Z.max (k - (ex - ey)) 0) ltac:(lia)).
    assert (d1 - 1 + Z.max (ex - ey - k) 0 < d2 + Z.max (k - (ex - ey)) 0);
      [|lia].
    apply pow2_lt_inv; [lia|]. rewrite !pow2_split by lia. nia. }
  assert (He' : e' <= k) by (subst e'; rewrite fexp_eq; lia).
  pose proof (pow2_gt0 s Hs) as Hps.
  pose proof (H s (k - e') Hs ltac:(lia) ltac:(lia)) as Hle.
  apply binary_round_aux_bounded.
  - apply Z.div_pos; lia.
  - pose proof (Zdigits2_quot (Z.pos mx) (Z.pos my) s ltac:(lia) ltac:(lia) Hs)
      as Hq.
    fold d1 d2 in Hq.
    transitivity (fexp prec emax (d1 + ex - (d2 + ey))); [subst e'; lia|].
    apply fexp_mono. lia.
  - lia.
  - lia.
  - apply Z.div_le_upper_bound; lia.
  - intros Hq. apply new_location_exact.
    pose proof (Z.div_mod (Z.pos mx * 2 ^ s) (Z.pos my) ltac:(lia)) as Hdm.
    pose proof (Z.mod_pos_bound (Z.pos mx * 2 ^ s) (Z.pos my) ltac:(lia)).
    rewrite Hq in Hdm. lia.
Qed.

Lemma halve_bounded_half x : pow_bounded 0 x -> pow_bounded (-1) (halve x).
Proof.
  unfold halve, float_two.
  destruct x as [s| | |s m e]; cbn [pow_bounded]; try done.
  intros (_ & He & Hm). apply SFdiv_bounded_pow; [lia|]. intros a b Ha Hb Hab.
  change (Z.pos 4503599627370496) with (2 ^ 52).
  rewrite <- pow2_split by lia.
  replace (52 + b) with ((0 - e) + a) by lia.
  rewrite pow2_split by lia. pose proof (pow2_gt0 a Ha). nia.
Qed.

Lemma pow_bounded_half_exponent m e :
  bounded prec emax m e = true -> e <= -1 -> Z.pos m <= 2 ^ (-1 - e) ->
  e < -53 \/ (e = -53 /\ Z.pos m <= 4503599627370496).
Proof.
  intros Hb He Hm. apply bounded_canonical in Hb. rewrite fexp_eq in Hb.
  pose proof (digits2_pos_bounds m) as [Hlo Hhi].
  destruct (Z_lt_le_dec e (-53)) as [|Hge]; [by left|right].
  destruct (Z.eq_dec e (-53)) as [->|Hne].
  - split; [done|]. exact Hm.
  - exfalso. assert (Z.pos (digits2_pos m) = 53) as Hd by lia.
    rewrite Hd in Hlo. change (2 ^ (53 - 1)) with 4503599627370496 in Hlo.
    pose proof (Z.pow_le_mono_r 2 (-1 - e) 51 ltac:(lia) ltac:(lia)) as Hp.
    change (2 ^ 51) with 2251799813685248 in Hp. lia.
Qed.

Lemma pow_bounded_half_interval x :
  pow_bounded (-1) x ->
  SFleb float_neg_half x = true /\ SFleb x float_half = true.
Proof.
  unfold float_half, float_neg_half.
  destruct x as [s| | |s m e]; cbn [pow_bounded]; try done.
  intros (Hb & He & Hm).
  destruct (pow_bounded_half_exponent m e Hb He Hm) as [Hlt|[-> Hle]];
    revert Hle || idtac;
    generalize 4503599627370496%positive as M; intros M; try intros Hle;
    unfold SFleb; cbn [SFcompare];
    change (Pos.compare_cont Eq) with Pos.compare.
  - destruct s.
    + destruct (Z.compare_spec (-53) e); (lia || done).
    + destruct (Z.compare_spec e (-53)); (lia || done).
  - rewrite Z.compare_refl. destruct s.
    + split; [|done].
      destruct (Pos.compare_spec M m); simpl; (lia || done).
    + split; [done|].
      destruct (Pos.compare_spec m M); simpl; (lia || done).
Qed.

(** ** Scores of particular matches *)

Lemma StdR_subseteq_StdC C : StdR C ⊆ StdC C.
Proof. unfold StdR, StdC. set_solver. Qed.

Lemma StdR_all_required C :
  (forall f, f ∈ C -> IsOptional f = false) -> StdR C = StdC C.
Proof.
  intros Hreq. unfold StdR, StdC. f_equal. apply set_eq. intros f.
  rewrite elem_of_filter. naive_solver.
Qed.

Lemma len_empty : len (∅ : gset StandardField) = 0.
Proof. unfold len. by rewrite size_empty. Qed.

(** X1: a concrete field set that is exactly the standardized canonical
    set of a type whose fields are all required scores exactly 1.0. *)
Theorem perfect_match_scores_one (F : gset StandardField)
    (C : gset EntityTypeField) :
  F <> ∅ -> StdC C = F -> (forall f, f ∈ C -> IsOptional f = false) ->
  _CalculateMatchScore F C = Ok float_one.
Proof.
  intros HF HC Hreq. rewrite _CalculateMatchScore_ok by done. f_equal.
  unfold spec_score. rewrite (StdR_all_required C Hreq), HC.
  replace (F ∩ F) with F by set_solver.
  replace (F ∖ F) with (∅ : gset StandardField) by set_solver.
  rewrite len_empty, Z.sub_0_r. pose proof (len_pos F HF) as Hc.
  replace (len F =? 0) with false by (symmetry; apply Z.eqb_neq; lia).
  rewrite count_quotient_same by done. by vm_compute.
Qed.

Lemma perfect_match_scores_one_witness :
  _CalculateMatchScore (list_to_set temperature_only) LOWER_fields
    = Ok float_one.
Proof.
  apply perfect_match_scores_one.
  - intros H. apply (f_equal size) in H. vm_compute in H. discriminate H.
  - unfold StdC, LOWER_fields, temperature_only. cbn. set_solver.
  - intros f Hf. unfold LOWER_fields in Hf. apply elem_of_list_to_set in Hf.
    cbn in Hf. apply list_elem_of_singleton in Hf as ->. reflexivity.
Defined.

(** X2: a non-empty concrete field set that shares no field with the type
    scores exactly -1.0 when the type has a required field, and exactly -0.5
    when it has none. *)
Theorem total_mismatch_score (F : gset StandardField)
    (C : gset EntityTypeField) :
  F <> ∅ -> F ## StdC C ->
  _CalculateMatchScore F C =
    Ok (if decide (StdR C = ∅) then float_neg_half else float_neg_one).
Proof.
  intros HF Hdisj. rewrite _CalculateMatchScore_ok by done. f_equal.
  pose proof (StdR_subseteq_StdC C) as Hsub.
  unfold spec_score.
  replace (F ∩ StdC C) with (∅ : gset StandardField) by set_solver.
  replace (F ∖ StdC C) with F by set_solver.
  replace (F ∩ StdR C) with (∅ : gset StandardField) by set_solver.
  replace (StdR C ∖ F) with (StdR C) by set_solver.
  rewrite len_empty, !Z.sub_0_l.
  pose proof (len_pos F HF) as Hc.
  rewrite (count_quotient_opp (len F)) by done.
  case_decide as Hr.
  - rewrite Hr, len_empty. by vm_compute.
  - pose proof (len_pos (StdR C) Hr) as Htr.
    replace (len (StdR C) =? 0) with false by (symmetry; apply Z.eqb_neq; lia).
    rewrite count_quotient_opp by done. by vm_compute.
Qed.

Lemma total_mismatch_score_witness :
  _CalculateMatchScore (list_to_set pressure_only) ROOM_fields
    = Ok float_neg_one /\
  _CalculateMatchScore (list_to_set pressure_only) LOOSE_fields
    = Ok float_neg_half.
Proof.
  split.
  - rewrite (total_mismatch_score (list_to_set pressure_only) ROOM_fields).
    + case_decide as H; [|reflexivity].
      apply (f_equal size) in H. vm_compute in H. discriminate H.
    + intros H. apply (f_equal size) in H. vm_compute in H. discriminate H.
    + unfold StdC, ROOM_fields, pressure_only. cbn. set_solver.
  - rewrite (total_mismatch_score (list_to_set pressure_only) LOOSE_fields).
    + case_decide as H; [reflexivity|].
      exfalso. apply H. unfold StdR, LOOSE_fields. cbn. set_solver.
    + intros H. apply (f_equal size) in H. vm_compute in H. discriminate H.
    + unfold StdC, LOOSE_fields, pressure_only. cbn. set_solver.
Defined.

(** X3: against a type without required fields the score of a non-empty
    concrete field set lies between -0.5 and 0.5. *)
Theorem optional_only_score_range (F : gset StandardField)
    (C : gset EntityTypeField) :
  F <> ∅ -> StdR C = ∅ ->
  exists s, _CalculateMatchScore F C = Ok s /\
            float_le float_neg_half s = true /\ float_le s float_half = true.
Proof.
  intros HF Hr. exists (spec_score F C).
  split; [by apply _CalculateMatchScore_ok|].
  apply pow_bounded_half_interval. unfold spec_score.
  rewrite Hr, len_empty. change (0 =? 0) with true. cbn iota.
  apply halve_bounded_half, count_quotient_bounded.
  - by apply len_pos.
  - apply overall_term_range.
Qed.

Lemma optional_only_score_range_witness :
  exists s,
    _CalculateMatchScore (list_to_set temperature_pressure) LOOSE_fields
      = Ok s /\
    float_le float_neg_half s = true /\ float_le s float_half = true.
Proof.
  apply optional_only_score_range.
  - intros H. apply (f_equal size) in H. vm_compute in H. discriminate H.
  - unfold StdR, LOOSE_fields. cbn. set_solver.
Defined.

Lemma spec_score_required_present (F : gset StandardField)
    (C : gset EntityTypeField) :
  F <> ∅ -> StdR C <> ∅ -> StdR C ⊆ F -> float_nonneg (spec_score F C).
Proof.
  intros HF Hr Hsub. unfold spec_score.
  pose proof (len_pos (StdR C) Hr) as Htr.
  replace (len (StdR C) =? 0) with false by (symmetry; apply Z.eqb_neq; lia).
  replace (F ∩ StdR C) with (StdR C) by set_solver.
  replace (StdR C ∖ F) with (∅ : gset StandardField) by set_solver.
  rewrite len_empty, Z.sub_0_r, (count_quotient_same (len (StdR C))) by done.
  assert (pow_bounded 0 (count_quotient (len (F ∩ StdC C) - len (F ∖ StdC C))
                           (len F))) as Hq.
  { apply count_quotient_bounded; [by apply len_pos|].
    apply overall_term_range. }
  apply halve_nonneg.
  - apply SFadd_bounded; [done|apply float_one_bounded].
  - by apply SFadd_one_nonneg.
Qed.

(** X4: when the type has required fields and the concrete field set holds
    them all, the score is not negative, so it exceeds the threshold -0.5. *)
Theorem required_present_score_nonneg (F : gset StandardField)
    (C : gset EntityTypeField) :
  F <> ∅ -> StdR C <> ∅ -> StdR C ⊆ F ->
  exists s, _CalculateMatchScore F C = Ok s /\
            float_le float_zero s = true /\
            float_gt s float_neg_half = true.
Proof.
  intros HF Hr Hsub. exists (spec_score F C).
  split; [by apply _CalculateMatchScore_ok|].
  pose proof (spec_score_required_present F C HF Hr Hsub) as Hn.
  split; [by apply float_nonneg_ge_zero|by apply float_nonneg_gt_neg_half].
Qed.

Lemma required_present_score_nonneg_witness :
  exists s,
    _CalculateMatchScore
      (list_to_set (new_StandardField "" "pressure" :: temperature_occupancy))
      ROOM_fields = Ok s /\
    float_le float_zero s = true /\ float_gt s float_neg_half = true.
Proof.
  apply required_present_score_nonneg.
  - intros H. apply (f_equal size) in H. vm_compute in H. discriminate H.
  - intros H. apply (f_equal size) in H. vm_compute in H. discriminate H.
  - unfold StdR, ROOM_fields, temperature_occupancy. cbn. set_solver.
Defined.

(** ** The ranking, beyond its order *)

Lemma score_of_unit_interval field_list entity_type :
  field_list <> [] ->
  float_le float_neg_one (score_of field_list entity_type) = true /\
  float_le (score_of field_list entity_type) float_one = true.
Proof.
  intros Hne. apply pow_bounded_unit_interval, spec_score_bounded.
  destruct field_list as [|x l]; [done|]. set_solver.
Qed.

Lemma ranking_succeeds upper self field_list general_type :
  concrete_types_expanded (universe self) = true ->
  field_list <> [] ->
  exists all,
    GetEntityTypesFromFields upper self field_list general_type false = Ok all.
Proof. intros Hex Hne. rewrite GetEntityTypesFromFields_ok by done. eauto. Qed.

Lemma list_filter_perm {A} (p : A -> bool) l k :
  l ≡ₚ k -> List.filter p l ≡ₚ List.filter p k.
Proof.
  induction 1 as [|x l k _ IH|x y l|l k m _ IH1 _ IH2]; simpl.
  - done.
  - destruct (p x); by rewrite IH.
  - destruct (p x), (p y); try done. apply perm_swap.
  - by rewrite IH1.
Qed.

Lemma forallb_false {A} (p : A -> bool) l :
  forallb p l = false -> exists x, x ∈ l /\ p x = false.
Proof.
  induction l as [|x l IH]; simpl; [done|].
  destruct (p x) eqn:Hx; simpl.
  - intros (y & Hy & Hp)%IH. exists y. split; [by right|done].
  - intros _. exists x. split; [left|done].
Qed.

(** X5: over a universe whose concrete types all have their inherited
    fields expanded, the ranking of a non-empty field list raises nothing
    and scores every candidate type exactly once: the matches are, up to
    their order, the candidates, each with the given field list and its
    score, and with best_fit those of them above the threshold; every
    score is between -1.0 and 1.0.  Over a universe with a concrete type
    that is not expanded the ranking fails, whatever is asked, as
    [GetAllFields] fails for that type. *)
Theorem ranking_scores_each_candidate_once upper self field_list general_type
    best_fit :
  (concrete_types_expanded (universe self) = true ->
   field_list <> [] ->
   exists matches,
     GetEntityTypesFromFields upper self field_list general_type best_fit
       = Ok matches /\
     matches ≡ₚ
       (let scored :=
          map (fun et => new_Match field_list et (score_of field_list et))
            (candidate_types upper (universe self) general_type) in
        if best_fit
        then List.filter
               (fun m => float_gt (GetMatchScore m)
                           (match_score_threshold self))
               scored
        else scored) /\
     forall m, m ∈ matches ->
       GetFieldList m = field_list /\
       GetMatchEntityType m
         ∈ candidate_types upper (universe self) general_type /\
       GetMatchScore m = score_of field_list (GetMatchEntityType m) /\
       float_le float_neg_one (GetMatchScore m) = true /\
       float_le (GetMatchScore m) float_one = true) /\
  (concrete_types_expanded (universe self) = false ->
   exists et e,
     et ∈ all_types (universe self) /\ is_abstract et = false /\
     inherited_fields_expanded et = false /\
     GetAllFields et = Raise e /\
     GetEntityTypesFromFields upper self field_list general_type best_fit
       = Raise e).
Proof.
  split.
  - intros Hex Hne. rewrite GetEntityTypesFromFields_ok by done.
    eexists. split; [reflexivity|]. cbn zeta. split.
    + destruct best_fit; [apply list_filter_perm|]; apply sorted_perm.
    + intros m Hm.
      assert (m ∈ map (fun et => new_Match field_list et
                                   (score_of field_list et))
                    (candidate_types upper (universe self) general_type))
        as Hin.
      { rewrite <- (sorted_perm float_lt GetMatchScore).
        destruct best_fit; [|done].
        by apply elem_of_filter_bool in Hm as [Hm _]. }
      apply list_elem_of_fmap in Hin as (et & -> & Het). cbn.
      repeat split; try done; by apply score_of_unit_interval.
  - intros Hex. rewrite GetEntityTypesFromFields_unexpanded by done.
    unfold concrete_types_expanded in Hex.
    apply forallb_false in Hex as (et & Het & Hq).
    apply orb_false_iff in Hq as [Ha He].
    exists et, type_not_expanded. repeat split; try done.
    unfold GetAllFields. by rewrite He.
Qed.

Lemma ranking_scores_each_candidate_once_witness :
  (concrete_types_expanded blueprint_universe = true /\
   exists matches,
     GetEntityTypesFromFields upper_ascii (__init__ blueprint_universe)
       temperature_pressure None false = Ok matches /\
     matches ≡ₚ [new_Match temperature_pressure ROOM
                   (score_of temperature_pressure ROOM)]) /\
  (concrete_types_expanded draft_universe = false /\
   exists e,
     GetAllFields DRAFT = Raise e /\
     GetEntityTypesFromFields upper_ascii (__init__ draft_universe)
       temperature_pressure None false = Raise e).
Proof.
  split.
  - split; [reflexivity|].
    destruct (proj1 (ranking_scores_each_candidate_once upper_ascii
                       (__init__ blueprint_universe) temperature_pressure
                       None false) eq_refl ltac:(done))
      as (matches & Hm & Hp & _).
    exists matches. split; [exact Hm|exact Hp].
  - split; [reflexivity|].
    destruct (proj2 (ranking_scores_each_candidate_once upper_ascii
                       (__init__ draft_universe) temperature_pressure
                       None false) eq_refl)
      as (et & e & Het & _ & _ & He & Hr).
    exists e. split; [|exact Hr].
    assert (et = DRAFT) as Heq
      by (apply list_elem_of_singleton in Het; exact Het).
    by rewrite <- Heq.
Defined.

(** X6: for the empty field list the ranking over a universe whose concrete
    types are expanded returns the empty list when there is no candidate
    type, and otherwise fails with the ValueError of the first candidate's
    score, with or without best_fit; over any other universe it fails. *)
Theorem ranking_of_no_fields upper self general_type best_fit :
  (concrete_types_expanded (universe self) = true ->
   candidate_types upper (universe self) general_type = [] ->
   GetEntityTypesFromFields upper self [] general_type best_fit = Ok []) /\
  (concrete_types_expanded (universe self) = true ->
   candidate_types upper (universe self) general_type <> [] ->
   GetEntityTypesFromFields upper self [] general_type best_fit =
     Raise (ValueError "Concrete field set cannot be empty.")) /\
  (concrete_types_expanded (universe self) = false ->
   exists e,
     GetEntityTypesFromFields upper self [] general_type best_fit = Raise e).
Proof.
  split; [|split].
  - intros Hex. rewrite GetEntityTypesFromFields_empty by done.
    by destruct (candidate_types upper (universe self) general_type).
  - intros Hex. rewrite GetEntityTypesFromFields_empty by done.
    by destruct (candidate_types upper (universe self) general_type).
  - intros Hex. rewrite GetEntityTypesFromFields_unexpanded by done. eauto.
Qed.

Lemma ranking_of_no_fields_witness :
  (concrete_types_expanded campus_universe = true /\
   candidate_types upper_ascii campus_universe (Some "nothing") = [] /\
   GetEntityTypesFromFields upper_ascii (__init__ campus_universe) []
     (Some "nothing") true = Ok []) /\
  (candidate_types upper_ascii campus_universe None <> [] /\
   GetEntityTypesFromFields upper_ascii (__init__ campus_universe) [] None
     true = Raise (ValueError "Concrete field set cannot be empty.")) /\
  (concrete_types_expanded draft_universe = false /\
   exists e,
     GetEntityTypesFromFields upper_ascii (__init__ draft_universe) [] None
       true = Raise e).
Proof.
  split; [|split].
  - split; [reflexivity|]. split; [reflexivity|].
    exact (proj1 (ranking_of_no_fields upper_ascii (__init__ campus_universe)
                    (Some "nothing") true) eq_refl eq_refl).
  - assert (candidate_types upper_ascii campus_universe None <> []) as H
      by done.
    split; [exact H|].
    exact (proj1 (proj2 (ranking_of_no_fields upper_ascii
                           (__init__ campus_universe) None true)) eq_refl H).
  - split; [reflexivity|].
    exact (proj2 (proj2 (ranking_of_no_fields upper_ascii
                           (__init__ draft_universe) None true)) eq_refl).
Defined.

Lemma list_filter_all {A} (p : A -> bool) l :
  Forall (fun x => p x = true) l ->
  List.filter p l = l /\ List.filter (fun x => negb (p x)) l = [].
Proof.
  induction 1 as [|x l Hx Hl [IH1 IH2]]; simpl; [done|].
  by rewrite Hx, IH1, IH2.
Qed.

(** On a sorted list, a test that only gets truer upwards selects a tail. *)
Lemma filter_sorted_split {A} (R : A -> A -> Prop) (p : A -> bool) l :
  StronglySorted R l ->
  (forall a b, a ∈ l -> b ∈ l -> R a b -> p a = true -> p b = true) ->
  l = List.filter (fun x => negb (p x)) l ++ List.filter p l.
Proof.
  induction 1 as [|x l Hs IH Hx]; intros Hmono; simpl; [done|].
  destruct (p x) eqn:Hp; simpl.
  - assert (Forall (fun y => p y = true) l) as Hall.
    { rewrite Forall_forall in Hx. apply Forall_forall. intros y Hy.
      apply (Hmono x y); [left|by right|by apply Hx|done]. }
    destruct (list_filter_all p l Hall) as [-> ->]. done.
  - f_equal. apply IH. intros a b Ha Hb. apply Hmono; by right.
Qed.

Lemma float_gt_mono thr a b :
  is_finite thr -> is_finite a -> is_finite b ->
  float_le a b = true -> float_gt a thr = true -> float_gt b thr = true.
Proof.
  intros Ht Ha Hb Hab Hgt. unfold float_gt in *.
  destruct (SFltb thr b) eqn:Hlt; [done|].
  apply (SFltb_false_SFleb b thr Hb Ht) in Hlt.
  pose proof (SFleb_trans a b thr Ha Hb Ht Hab Hlt) as Hle.
  apply float_le_not_lt in Hle. unfold float_lt in Hle. congruence.
Qed.

(** X7: with a finite threshold, best_fit cuts a head off the ascending
    ranking: the full ranking is the dropped matches, none above the
    threshold, followed by the best-fit ranking. *)
Theorem best_fit_is_tail upper self field_list general_type all best :
  is_finite (match_score_threshold self) ->
  GetEntityTypesFromFields upper self field_list general_type false = Ok all ->
  GetEntityTypesFromFields upper self field_list general_type true = Ok best ->
  exists dropped,
    all = dropped ++ best /\
    Forall (fun m => float_gt (GetMatchScore m) (match_score_threshold self)
                     = false) dropped /\
    Forall (fun m => float_gt (GetMatchScore m) (match_score_threshold self)
                     = true) best.
Proof.
  intros Hthr Hall.
  pose proof (GetEntityTypesFromFields_Ok_inv _ _ _ _ _ _ Hall) as Hex.
  revert Hall. destruct field_list as [|x l].
  - rewrite !GetEntityTypesFromFields_empty by done.
    destruct (candidate_types _ _ _); [|done].
    intros [= <-] [= <-]. by exists [].
  - rewrite !GetEntityTypesFromFields_ok by done. cbn zeta iota.
    intros [= <-] [= <-].
    set (ranked := sorted float_lt GetMatchScore _).
    set (p := fun m => float_gt (GetMatchScore m) (match_score_threshold self)).
    exists (List.filter (fun m => negb (p m)) ranked).
    assert (forall m, m ∈ ranked -> is_finite (GetMatchScore m)) as Hfin.
    { intros m Hm. unfold ranked in Hm. rewrite sorted_perm in Hm.
      apply list_elem_of_fmap in Hm as (et & -> & _).
      by apply score_of_finite. }
    split; [|split].
    + apply (filter_sorted_split _ p ranked (ranked_sorted (x :: l) _ ltac:(done))).
      intros a b Ha Hb. apply float_gt_mono; auto.
    + apply Forall_forall. intros m Hm.
      apply elem_of_filter_bool in Hm as [_ Hm]. by apply negb_true_iff.
    + apply Forall_forall. intros m Hm.
      by apply elem_of_filter_bool in Hm as [_ Hm].
Qed.

Lemma best_fit_is_tail_witness :
  exists all best dropped,
    GetEntityTypesFromFields upper_ascii (__init__ campus_universe)
      temperature_occupancy None false = Ok all /\
    GetEntityTypesFromFields upper_ascii (__init__ campus_universe)
      temperature_occupancy None true = Ok best /\
    all = dropped ++ best /\ length dropped = 1%nat.
Proof.
  eexists. eexists.
  destruct (best_fit_is_tail upper_ascii (__init__ campus_universe)
              temperature_occupancy
              None _ _ I ltac:(vm_compute; reflexivity)
              ltac:(vm_compute; reflexivity)) as (dropped & Hd & _).
  exists dropped. split; [vm_compute; reflexivity|].
  split; [vm_compute; reflexivity|]. split; [exact Hd|].
  apply (f_equal length) in Hd. rewrite length_app in Hd. cbn in Hd. lia.
Defined.

(** X8: under the threshold of a new wrapper, over a universe whose concrete
    types are expanded, best_fit never drops a candidate type that has
    required fields when the field list holds them all. *)
Theorem best_fit_keeps_satisfied_types upper u field_list general_type
    entity_type :
  concrete_types_expanded u = true ->
  entity_type ∈ candidate_types upper u general_type ->
  StdR (list_to_set (to_entity_type_fields (_all_fields entity_type))) <> ∅ ->
  StdR (list_to_set (to_entity_type_fields (_all_fields entity_type)))
    ⊆ list_to_set field_list ->
  exists best m,
    GetEntityTypesFromFields upper (__init__ u) field_list general_type true
      = Ok best /\
    m ∈ best /\ GetMatchEntityType m = entity_type.
Proof.
  intros Hex Hc Hr Hsub.
  assert (field_list <> []) as Hne.
  { intros ->. apply Hr. set_solver. }
  rewrite GetEntityTypesFromFields_ok by done. cbn zeta iota.
  eexists. exists (new_Match field_list entity_type
                     (score_of field_list entity_type)).
  split; [reflexivity|]. split; [|done].
  apply elem_of_filter_bool. split.
  - rewrite sorted_perm. apply list_elem_of_fmap. by exists entity_type.
  - cbn. apply float_nonneg_gt_neg_half, spec_score_required_present; try done.
    destruct field_list as [|x l]; [done|]. set_solver.
Qed.

Lemma best_fit_keeps_satisfied_types_witness :
  exists best m,
    GetEntityTypesFromFields upper_ascii (__init__ campus_universe)
      (new_StandardField "" "pressure" :: temperature_occupancy) None true
      = Ok best /\
    m ∈ best /\ GetMatchEntityType m = ROOM.
Proof.
  apply best_fit_keeps_satisfied_types.
  - reflexivity.
  - vm_compute. left.
  - intros H. apply (f_equal size) in H. vm_compute in H. discriminate H.
  - unfold StdR, temperature_occupancy. cbn. set_solver.
Defined.

Lemma sorted_id {A K} (lt : K -> K -> bool) (key : A -> K) l :
  (forall x y, x ∈ l -> y ∈ l -> lt (key y) (key x) = false) ->
  sorted lt key l = l.
Proof.
  induction l as [|x l IH]; intros H; simpl; [done|].
  change (foldr (insert_by lt key) [] l) with (sorted lt key l).
  rewrite IH by (intros a b Ha Hb; apply H; by right).
  apply insert_by_front, Forall_forall. intros y Hy.
  apply H; [left|by right].
Qed.

Lemma SFeqb_SFleb x y : SFeqb x y = true -> SFleb x y = true /\ SFleb y x = true.
Proof.
  unfold SFeqb, SFleb. rewrite (SFcompare_antisym x y).
  by destruct (SFcompare x y) as [[]|].
Qed.

Lemma SFeqb_finite x v : is_finite x -> SFeqb x v = true -> is_finite v.
Proof.
  unfold SFeqb. destruct x as [s| | |s m e], v as [s'|s'| |s' m' e'];
    try done; simpl; by destruct s'.
Qed.

(** X9: the ranking is stable: the candidate types whose score equals a
    given value are listed in the order in which the universe yields them. *)
Theorem ranking_keeps_order_of_ties upper self field_list general_type
    matches v :
  GetEntityTypesFromFields upper self field_list general_type false
    = Ok matches ->
  map GetMatchEntityType
    (List.filter (fun m => SFeqb (GetMatchScore m) v) matches) =
  List.filter (fun et => SFeqb (score_of field_list et) v)
    (candidate_types upper (universe self) general_type).
Proof.
  intros H. pose proof (GetEntityTypesFromFields_Ok_inv _ _ _ _ _ _ H) as Hex.
  revert H. destruct field_list as [|x l].
  - rewrite GetEntityTypesFromFields_empty by done.
    destruct (candidate_types _ _ _); [|done]. by intros [= <-].
  - rewrite GetEntityTypesFromFields_ok by done. cbn zeta iota. intros [= <-].
    set (f := fun et => new_Match (x :: l) et (score_of (x :: l) et)).
    assert (Forall (fun m => is_finite (GetMatchScore m))
              (map f (candidate_types upper (universe self) general_type)))
      as Hfin.
    { apply Forall_forall. intros m Hm.
      apply list_elem_of_fmap in Hm as (et & -> & _). by apply score_of_finite. }
    rewrite (filter_sorted float_lt GetMatchScore is_finite
               float_lt_asym float_not_lt_trans _ _ Hfin).
    rewrite list_filter_map, sorted_map. cbn [GetMatchScore f].
    rewrite map_map. cbn [GetMatchEntityType f]. rewrite map_id.
    apply sorted_id. intros a b Ha Hb.
    apply elem_of_filter_bool in Ha as [_ Ha].
    apply elem_of_filter_bool in Hb as [_ Hb].
    pose proof (score_of_finite (x :: l) a ltac:(done)) as Hfa.
    pose proof (score_of_finite (x :: l) b ltac:(done)) as Hfb.
    pose proof (SFeqb_finite _ _ Hfa Ha) as Hfv.
    apply SFeqb_SFleb in Ha as [Ha _]. apply SFeqb_SFleb in Hb as [_ Hb].
    apply float_le_not_lt. by apply (SFleb_trans _ v).
Qed.

Lemma ranking_keeps_order_of_ties_witness :
  exists matches,
    GetEntityTypesFromFields upper_ascii (__init__ campus_universe)
      pressure_only None false = Ok matches /\
    map GetMatchEntityType
      (List.filter (fun m => SFeqb (GetMatchScore m) float_neg_one) matches)
      = [ROOM; MIXED; LOWER].
Proof.
  eexists. split; [vm_compute; reflexivity|].
  rewrite (ranking_keeps_order_of_ties upper_ascii (__init__ campus_universe)
             pressure_only None _ float_neg_one
             ltac:(vm_compute; reflexivity)).
  vm_compute. reflexivity.
Defined.

(** ** The field list, beyond its order *)

(** X10: a successful field query returns the fields of the resolved,
    expanded type, each dictionary entry once: all of them without
    required_only, the required ones with it. *)
Theorem field_query_returns_type_fields self namespace_name entity_type_name
    required_only fields :
  GetFieldsForTypeName self namespace_name entity_type_name required_only
    = Ok fields ->
  exists entity_type,
    GetEntityType (entity_type_universe (universe self)) namespace_name
      entity_type_name = Some entity_type /\
    inherited_fields_expanded entity_type = true /\
    fields ≡ₚ
      (if required_only
       then List.filter (fun field => negb (IsOptional field))
              (to_entity_type_fields (_all_fields entity_type))
       else to_entity_type_fields (_all_fields entity_type)) /\
    (required_only = false ->
     length fields = length (_all_fields entity_type)).
Proof.
  intros H.
  destruct (GetFieldsForTypeName_inv _ _ _ _ _ H) as (et & Hr & He).
  rewrite (GetFieldsForTypeName_ok _ _ _ _ et Hr He) in H.
  injection H as <-. exists et. split; [done|]. split; [done|]. split.
  - apply sorted_perm.
  - intros ->. rewrite (Permutation_length (sorted_perm _ _ _)).
    unfold to_entity_type_fields, dict_values.
    by rewrite length_map, length_fmap.
Qed.

Lemma field_query_returns_type_fields_witness :
  exists fields entity_type,
    GetFieldsForTypeName (__init__ campus_universe) "FACILITIES" "ROOM" false
      = Ok fields /\
    GetEntityType (entity_type_universe campus_universe) "FACILITIES" "ROOM"
      = Some entity_type /\
    length fields = length (_all_fields entity_type).
Proof.
  eexists.
  destruct (field_query_returns_type_fields (__init__ campus_universe)
              "FACILITIES" "ROOM" false _ ltac:(vm_compute; reflexivity))
    as (et & Hr & _ & _ & Hlen).
  exists et. split; [vm_compute; reflexivity|]. split; [exact Hr|].
  exact (Hlen eq_refl).
Defined.

Lemma string_ltb_irrefl a : String.ltb a a = false.
Proof.
  unfold String.ltb. pose proof (String.compare_antisym a a) as H.
  by destruct (String.compare a a).
Qed.

(** X11: the field list is stable: fields of one name (the increments of a
    repeated field, or fields of different namespaces) stay in the order of
    the type's field dictionary. *)
Theorem field_query_keeps_order_of_equal_names self namespace_name
    entity_type_name fields entity_type name :
  GetEntityType (entity_type_universe (universe self)) namespace_name
    entity_type_name = Some entity_type ->
  GetFieldsForTypeName self namespace_name entity_type_name false
    = Ok fields ->
  List.filter
    (fun f : EntityTypeField => String.eqb (GetStandardFieldName f) name)
    fields =
  List.filter
    (fun f : EntityTypeField => String.eqb (GetStandardFieldName f) name)
    (to_entity_type_fields (_all_fields entity_type)).
Proof.
  intros Hr H.
  destruct (GetFieldsForTypeName_inv _ _ _ _ _ H) as (et & Hr' & He).
  assert (et = entity_type) as -> by congruence.
  rewrite (GetFieldsForTypeName_ok _ _ _ _ _ Hr He) in H. injection H as <-.
  rewrite (filter_sorted String.ltb
             (fun x : EntityTypeField => GetStandardFieldName x)
             (fun _ => True) string_lt_asym
             (fun a b c _ _ _ => string_not_lt_trans a b c))
    by (by apply Forall_forall).
  apply sorted_id. intros a b Ha Hb.
  apply elem_of_filter_bool in Ha as [_ Ha].
  apply elem_of_filter_bool in Hb as [_ Hb].
  apply String.eqb_eq in Ha, Hb. rewrite Ha, Hb. apply string_ltb_irrefl.
Qed.

Lemma field_query_keeps_order_of_equal_names_witness :
  exists fields,
    GetFieldsForTypeName (__init__ twins_universe) "FACILITIES" "TWINS" false
      = Ok fields /\
    map GetIncrement
      (List.filter
         (fun f : EntityTypeField =>
            String.eqb (GetStandardFieldName f) "temperature")
         fields) = ["_2"; "_1"].
Proof.
  eexists. split; [vm_compute; reflexivity|].
  rewrite (field_query_keeps_order_of_equal_names (__init__ twins_universe)
             "FACILITIES" "TWINS" _ TWINS "temperature" eq_refl
             ltac:(vm_compute; reflexivity)).
  reflexivity.
Defined.

(** ** The console functions *)

Lemma io_bind_ok {A B} (m : io A) (f : A -> io B) c a c' :
  m c = (inr a, c') -> (m ≫= f) c = f a c'.
Proof. intros H. unfold mbind, io_bind. by rewrite H. Qed.

Lemma io_bind_err {A B} (m : io A) (f : A -> io B) c e c' :
  m c = (inl e, c') -> (m ≫= f) c = (inl e, c').
Proof. intros H. unfold mbind, io_bind. by rewrite H. Qed.

Lemma append_valid_fields_run ontology raw acc c :
  append_valid_fields ontology raw acc c =
    (inr (acc ++ map (new_StandardField "")
                   (List.filter
                      (IsFieldDefined (field_universe (universe ontology)) "")
                      raw)), c).
Proof.
  revert acc. induction raw as [|field raw IH]; intros acc; simpl.
  - by rewrite app_nil_r.
  - unfold mbind, io_bind. simpl. rewrite IH.
    destruct (IsFieldDefined _ "" field); simpl; [|done].
    by rewrite <- app_assoc.
Qed.

Lemma remove_spaces_has_no_space s : string_has " " (remove_spaces s) = false.
Proof.
  induction s as [|c s IH]; cbn [remove_spaces string_has]; [done|].
  destruct (Ascii.eqb c " ") eqn:Hc; cbn [string_has]; [done|].
  rewrite IH, orb_false_r. rewrite Ascii.eqb_sym. exact Hc.
Qed.

Lemma split_on_pieces sep s piece :
  piece ∈ split_on sep s ->
  string_has sep piece = false /\
  forall c, string_has c piece = true -> string_has c s = true.
Proof.
  revert piece. induction s as [|c s IH]; intros piece;
    cbn [split_on string_has].
  - intros ->%list_elem_of_singleton. done.
  - destruct (Ascii.eqb c sep) eqn:Hc.
    + intros [->|Hin]%elem_of_cons; [done|].
      destruct (IH _ Hin) as [H1 H2]. split; [done|].
      intros c' Hc'. rewrite (H2 c' Hc'). apply orb_true_r.
    + destruct (split_on sep s) as [|p ps] eqn:Hs.
      * intros ->%list_elem_of_singleton. cbn [string_has].
        rewrite Ascii.eqb_sym, Hc. split; [done|]. intros c'.
        rewrite orb_false_r. intros ->. done.
      * intros [->|Hin]%elem_of_cons.
        -- destruct (IH p ltac:(left)) as [H1 H2]. cbn [string_has].
           rewrite Ascii.eqb_sym, Hc, H1. split; [done|]. intros c'.
           intros [->|H]%orb_true_iff; [done|].
           rewrite (H2 c' H). apply orb_true_r.
        -- destruct (IH piece ltac:(by right)) as [H1 H2]. split; [done|].
           intros c' Hc'. rewrite (H2 c' Hc'). apply orb_true_r.
Qed.

Lemma mapM_input {X} (prompt : X -> string) l rest out :
  (length l <= length rest)%nat ->
  mapM (fun i => input (prompt i)) l (Build_console rest out) =
    (inr (take (length l) rest),
     Build_console (drop (length l) rest) (out ++ map prompt l)).
Proof.
  revert rest out. induction l as [|x l IH]; intros rest out Hlen.
  - cbn. by rewrite drop_0, app_nil_r.
  - destruct rest as [|line rest]; [cbn in Hlen; lia|].
    cbn [mapM]. unfold mbind at 1. unfold io_bind at 1. cbn [input stdin stdout].
    unfold mbind at 1. unfold io_bind at 1.
    rewrite IH by (cbn in Hlen; lia). cbn.
    by rewrite <- app_assoc.
Qed.

Lemma mapM_input_eof {X} (prompt : X -> string) l rest out :
  (length rest < length l)%nat ->
  (mapM (fun i => input (prompt i)) l (Build_console rest out)).1
    = inl EOFError.
Proof.
  revert rest out. induction l as [|x l IH]; intros rest out Hlen.
  - cbn in Hlen. lia.
  - destruct rest as [|line rest]; [done|].
    cbn [mapM]. unfold mbind at 1. unfold io_bind at 1. cbn [input stdin stdout].
    unfold mbind at 1. unfold io_bind at 1.
    specialize (IH rest (out ++ [prompt x]) ltac:(cbn in Hlen; lia)).
    by destruct (mapM (M:=io) _ l _) as [[e|a] c'].
Qed.

Lemma _InputFieldsFromUser_paste int ontology line rest out :
  _InputFieldsFromUser int ontology false (Build_console (line :: rest) out) =
    (inr (map (new_StandardField "")
            (List.filter
               (IsFieldDefined (field_universe (universe ontology)) "")
               (split_on "," (remove_spaces line)))),
     Build_console rest (out ++ ["Paste your fields here: "])).
Proof.
  unfold _InputFieldsFromUser. unfold mbind at 1. unfold io_bind at 1.
  unfold mbind at 1. unfold io_bind at 1. cbn [input stdin stdout mret io_ret].
  apply append_valid_fields_run.
Qed.

Section parse_input_facts.
Variable int : string -> result Z.
Variable literal_eval_is_1 : string -> result bool.
Variable colored : string -> string -> string.
Variable str_of_match : Match -> string.
Variable str_of_field : EntityTypeField -> string.

(** X12: in paste mode [_InputFieldsFromUser] reads one line and raises
    nothing: it returns, in the order typed, the comma-separated names that
    the field universe defines in the global namespace, with every blank
    removed; each returned field is valid, global and free of blanks and
    commas.  At the end of the input it ends with EOFError. *)
Theorem pasted_fields_are_valid ontology line rest out :
  _InputFieldsFromUser int ontology false (Build_console (line :: rest) out) =
    (inr (map (new_StandardField "")
            (List.filter
               (IsFieldDefined (field_universe (universe ontology)) "")
               (split_on "," (remove_spaces line)))),
     Build_console rest (out ++ ["Paste your fields here: "])) /\
  (forall name,
     name ∈ List.filter
              (IsFieldDefined (field_universe (universe ontology)) "")
              (split_on "," (remove_spaces line)) ->
     IsFieldValid ontology (PyStandardField (new_StandardField "" name))
       = Ok true /\
     string_has " " name = false /\ string_has "," name = false) /\
  (_InputFieldsFromUser int ontology false (Build_console [] out)).1
    = inl EOFError.
Proof.
  split; [|split].
  - apply _InputFieldsFromUser_paste.
  - intros name [Hin Hv]%elem_of_filter_bool.
    destruct (split_on_pieces _ _ _ Hin) as [Hcomma Hsub].
    split; [cbn; by rewrite Hv|]. split; [|done].
    destruct (string_has " " name) eqn:Hsp; [|done].
    apply Hsub in Hsp. by rewrite remove_spaces_has_no_space in Hsp.
  - reflexivity.
Qed.

(** X13: in manual mode [_InputFieldsFromUser] reads the count and then
    that many names, none when the count is zero or negative, and returns
    the names the field universe defines, unchanged and in the order typed;
    when fewer names are left than the count asks for, it ends with
    EOFError, and a count that [int] rejects ends it with that error. *)
Theorem typed_fields_are_valid ontology line rest out :
  (forall n,
     int line = Ok n -> (Z.to_nat n <= length rest)%nat ->
     _InputFieldsFromUser int ontology true (Build_console (line :: rest) out) =
       (inr (map (new_StandardField "")
               (List.filter
                  (IsFieldDefined (field_universe (universe ontology)) "")
                  (take (Z.to_nat n) rest))),
        Build_console (drop (Z.to_nat n) rest)
          (out ++ "Number of entity fields: " ::
             map (fun i => "Field name #" +:+ pretty i +:+ ": ") (seqZ 1 n)))) /\
  (forall n,
     int line = Ok n -> (length rest < Z.to_nat n)%nat ->
     (_InputFieldsFromUser int ontology true
        (Build_console (line :: rest) out)).1 = inl EOFError) /\
  (forall e,
     int line = Raise e ->
     _InputFieldsFromUser int ontology true (Build_console (line :: rest) out) =
       (inl (Raised e),
        Build_console rest (out ++ ["Number of entity fields: "]))).
Proof.
  split; [|split].
  - intros n Hn Hlen. unfold _InputFieldsFromUser.
    unfold mbind at 1. unfold io_bind at 1.
    unfold mbind at 1. unfold io_bind at 1. cbn [input stdin stdout].
    rewrite Hn. unfold mbind at 1. unfold io_bind at 1. cbn [lift mret io_ret].
    pose proof (mapM_input (fun i => "Field name #" +:+ pretty i +:+ ": ")
                  (seqZ 1 n) rest (out ++ ["Number of entity fields: "])) as H.
    rewrite length_seqZ in H. rewrite H by done.
    rewrite append_valid_fields_run. cbn. by rewrite <- app_assoc.
  - intros n Hn Hlen. unfold _InputFieldsFromUser.
    unfold mbind at 1. unfold io_bind at 1.
    unfold mbind at 1. unfold io_bind at 1. cbn [input stdin stdout].
    rewrite Hn. unfold mbind at 1. unfold io_bind at 1. cbn [lift mret io_ret].
    pose proof (mapM_input_eof (fun i => "Field name #" +:+ pretty i +:+ ": ")
                  (seqZ 1 n) rest (out ++ ["Number of entity fields: "])) as H.
    rewrite length_seqZ in H. specialize (H Hlen).
    destruct (mapM (M:=io) _ (seqZ 1 n) _) as [[e|a] c']; simpl in *;
      congruence.
  - intros e He. unfold _InputFieldsFromUser.
    unfold mbind at 1. unfold io_bind at 1.
    unfold mbind at 1. unfold io_bind at 1. cbn [input stdin stdout].
    by rewrite He.
Qed.

End parse_input_facts.

Lemma pasted_fields_are_valid_witness :
  exists fields c,
    _InputFieldsFromUser (fun _ => Ok 0) room_wrapper false
      (Build_console ["temperature, pressure ,occupancy"] []) = (inr fields, c) /\
    fields = temperature_occupancy /\
    IsFieldValid room_wrapper
      (PyStandardField (new_StandardField "" "occupancy")) = Ok true.
Proof.
  eexists. eexists.
  split; [apply (pasted_fields_are_valid (fun _ => Ok 0) room_wrapper)|].
  split; [reflexivity|].
  apply (proj1 (proj2 (pasted_fields_are_valid (fun _ => Ok 0) room_wrapper
                         "temperature, pressure ,occupancy" [] []))
           "occupancy").
  vm_compute. right. left.
Defined.

Lemma typed_fields_are_valid_witness :
  exists fields c,
    _InputFieldsFromUser (fun _ => Ok 2) room_wrapper true
      (Build_console ["2"; "humidity"; "out door"; "left over"] [])
      = (inr fields, c) /\
    fields = [new_StandardField "" "humidity"] /\
    stdin c = ["left over"].
Proof.
  eexists. eexists. split.
  - apply (proj1 (typed_fields_are_valid (fun _ => Ok 2) room_wrapper "2"
                    ["humidity"; "out door"; "left over"] []) 2 eq_refl).
    cbn. lia.
  - split; reflexivity.
Defined.

Section listing_facts.
Variable upper : string -> string.
Variable int : string -> result Z.
Variable literal_eval_is_1 : string -> result bool.
Variable colored : string -> string -> string.
Variable str_of_match : Match -> string.
Variable str_of_field : EntityTypeField -> string.

Lemma mapM_listing_ok (d : list Match) k a c :
  (a + k <= length d)%nat ->
  mapM (fun i => m ← dict_item d i;
                 print (match_line colored str_of_match i m)) (seq a k) c =
    (inr (replicate k tt),
     Build_console (stdin c)
       (stdout c ++
        imap (fun i m => match_line colored str_of_match (a + i) m +:+ nl)
          (take k (drop a d)))).
Proof.
  revert a c. induction k as [|k IH]; intros a c Hlen.
  - cbn. rewrite app_nil_r. by destruct c.
  - destruct (lookup_lt_is_Some_2 d a ltac:(lia)) as [m Hm].
    cbn [seq mapM]. unfold mbind at 1. unfold io_bind at 1.
    unfold mbind at 1. unfold io_bind at 1. unfold dict_item. rewrite Hm.
    cbn [mret io_ret print write]. unfold mbind at 1. unfold io_bind at 1.
    rewrite IH by lia. cbn [stdin stdout mret io_ret replicate].
    rewrite (drop_S d m a Hm). cbn [take imap].
    rewrite <- app_assoc. cbn [app]. rewrite Nat.add_0_r.
    unfold mret, io_ret. do 4 f_equal.
    apply imap_ext. intros i x _. cbn. do 2 f_equal. lia.
Qed.

Lemma mapM_listing_short (d : list Match) k a c :
  (a <= length d < a + k)%nat ->
  mapM (fun i => m ← dict_item d i;
                 print (match_line colored str_of_match i m)) (seq a k) c =
    (inl (KeyError (length d)),
     Build_console (stdin c)
       (stdout c ++
        imap (fun i m => match_line colored str_of_match (a + i) m +:+ nl)
          (drop a d))).
Proof.
  revert a c. induction k as [|k IH]; intros a c Hlen; [lia|].
  cbn [seq mapM]. unfold mbind at 1. unfold io_bind at 1.
  unfold mbind at 1. unfold io_bind at 1. unfold dict_item.
  destruct (d !! a) as [m|] eqn:Hm.
  - apply lookup_lt_Some in Hm as Hlt.
    cbn [mret io_ret print write]. unfold mbind at 1. unfold io_bind at 1.
    rewrite IH by lia. cbn [stdin stdout].
    rewrite (drop_S d m a Hm). cbn [imap].
    rewrite <- app_assoc. cbn [app]. rewrite Nat.add_0_r.
    unfold mret, io_ret. do 4 f_equal.
    apply imap_ext. intros i x _. cbn. do 2 f_equal. lia.
  - apply lookup_ge_None in Hm. assert (a = length d) as -> by lia.
    cbn [throw]. rewrite drop_all. cbn. rewrite app_nil_r. by destruct c.
Qed.

Lemma print_first_matches_short (d : list Match) c :
  (length d < 10)%nat ->
  print_first_matches colored str_of_match d c =
    (inl (KeyError (length d)),
     Build_console (stdin c)
       (stdout c ++
        imap (fun i m => match_line colored str_of_match i m +:+ nl) d)).
Proof.
  intros H. unfold print_first_matches, DEFAULT_MATCHED_TYPES_LIST_SIZE.
  unfold mbind at 1. unfold io_bind at 1.
  by rewrite (mapM_listing_short d 10 0 c) by lia.
Qed.

Lemma print_first_matches_ok (d : list Match) c :
  (10 <= length d)%nat ->
  print_first_matches colored str_of_match d c =
    (inr tt,
     Build_console (stdin c)
       (stdout c ++
        imap (fun i m => match_line colored str_of_match i m +:+ nl)
          (take 10 d))).
Proof.
  intros H. unfold print_first_matches, DEFAULT_MATCHED_TYPES_LIST_SIZE.
  unfold mbind at 1. unfold io_bind at 1.
  by rewrite (mapM_listing_ok d 10 0 c) by lia.
Qed.

(** X14: the first listing of [GetTypesForFieldList] asks the dictionary
    of matches for the keys 0 to 9: with fewer than ten matches it prints
    the matches there are and ends with KeyError on the first missing key;
    with ten or more it prints the first ten matches and nothing else. *)
Theorem first_listing_wants_ten_matches (d : list Match) c :
  ((length d < 10)%nat ->
   print_first_matches colored str_of_match d c =
     (inl (KeyError (length d)),
      Build_console (stdin c)
        (stdout c ++
         imap (fun i m => match_line colored str_of_match i m +:+ nl) d))) /\
  ((10 <= length d)%nat ->
   print_first_matches colored str_of_match d c =
     (inr tt,
      Build_console (stdin c)
        (stdout c ++
         imap (fun i m => match_line colored str_of_match i m +:+ nl)
           (take 10 d)))).
Proof.
  split; [apply print_first_matches_short|apply print_first_matches_ok].
Qed.

Lemma ranking_length self field_list general_type all :
  GetEntityTypesFromFields upper self field_list general_type false = Ok all ->
  length all = length (candidate_types upper (universe self) general_type).
Proof.
  intros H. pose proof (GetEntityTypesFromFields_Ok_inv _ _ _ _ _ _ H) as Hex.
  revert H. destruct field_list as [|x l].
  - rewrite GetEntityTypesFromFields_empty by done.
    destruct (candidate_types _ _ _); [|done]. by intros [= <-].
  - rewrite GetEntityTypesFromFields_ok by done. intros [= <-]. cbn zeta iota.
    by rewrite (Permutation_length (sorted_perm _ _ _)), length_map.
Qed.

Lemma GetTypesForFieldList_paste (continue : list Match -> io unit)
    ontology decision pasted rest out :
  literal_eval_is_1 decision = Ok false ->
  GetTypesForFieldList upper int literal_eval_is_1 colored str_of_match continue
    ontology (Build_console (decision :: pasted :: rest) out) =
  (entity_type_match_dict ←
     lift (GetEntityTypesFromFields upper ontology
             (map (new_StandardField "")
                (List.filter
                   (IsFieldDefined (field_universe (universe ontology)) "")
                   (split_on "," (remove_spaces pasted))))
             None false);
   _ ← print_first_matches colored str_of_match entity_type_match_dict;
   continue entity_type_match_dict)
    (Build_console rest
       (((out ++ [("1. Input fields one by one" +:+ nl
                   +:+ "2. Paste comma-separated list of fields") +:+ nl])
           ++ ["Input type: "]) ++ ["Paste your fields here: "])).
Proof.
  intros Hdec. unfold GetTypesForFieldList.
  unfold mbind at 1. unfold io_bind at 1. cbn [print write stdin stdout].
  unfold mbind at 1. unfold io_bind at 1. cbn [input stdin stdout].
  rewrite Hdec. unfold mbind at 1. unfold io_bind at 1. cbn [lift mret io_ret].
  unfold mbind at 1. unfold io_bind at 1.
  by rewrite _InputFieldsFromUser_paste.
Qed.

(** X15: [GetTypesForFieldList] in paste mode ends early, whatever follows
    its first listing.  Over a universe whose concrete types are expanded:
    with the ValueError of the empty field set when no pasted name is a
    defined field and the universe has a candidate type, and with KeyError
    when some name is defined but the universe has fewer than ten candidate
    types.  Over any other universe: with the failure of the ranking. *)
Theorem field_listing_ends_early (continue : list Match -> io unit)
    ontology decision pasted rest out :
  literal_eval_is_1 decision = Ok false ->
  (concrete_types_expanded (universe ontology) = true ->
   List.filter (IsFieldDefined (field_universe (universe ontology)) "")
     (split_on "," (remove_spaces pasted)) = [] ->
   candidate_types upper (universe ontology) None <> [] ->
   (GetTypesForFieldList upper int literal_eval_is_1 colored str_of_match
      continue ontology (Build_console (decision :: pasted :: rest) out)).1 =
     inl (Raised (ValueError "Concrete field set cannot be empty."))) /\
  (concrete_types_expanded (universe ontology) = true ->
   List.filter (IsFieldDefined (field_universe (universe ontology)) "")
     (split_on "," (remove_spaces pasted)) <> [] ->
   (length (candidate_types upper (universe ontology) None) < 10)%nat ->
   (GetTypesForFieldList upper int literal_eval_is_1 colored str_of_match
      continue ontology (Build_console (decision :: pasted :: rest) out)).1 =
     inl (KeyError (length (candidate_types upper (universe ontology) None)))) /\
  (concrete_types_expanded (universe ontology) = false ->
   exists e,
     (GetTypesForFieldList upper int literal_eval_is_1 colored str_of_match
        continue ontology (Build_console (decision :: pasted :: rest) out)).1 =
       inl (Raised e)).
Proof.
  intros Hdec. rewrite (GetTypesForFieldList_paste _ _ _ _ _ _ Hdec).
  set (names := List.filter _ (split_on "," (remove_spaces pasted))).
  split; [|split].
  - intros Hex -> Hc. cbn [map].
    rewrite GetEntityTypesFromFields_empty by done.
    by destruct (candidate_types upper (universe ontology) None).
  - intros Hex Hne Hlt.
    assert (map (new_StandardField "") names <> []) as Hfl
      by (by destruct names).
    pose proof (ranking_succeeds upper ontology _ None Hex Hfl) as (all & Hall).
    rewrite Hall. pose proof (ranking_length _ _ _ _ Hall) as Hlen.
    unfold mbind at 1. unfold io_bind at 1. cbn [lift mret io_ret].
    unfold mbind at 1. unfold io_bind at 1.
    rewrite print_first_matches_short by lia. by rewrite Hlen.
  - intros Hex. rewrite GetEntityTypesFromFields_unexpanded by done.
    by exists type_not_expanded.
Qed.

Lemma StronglySorted_app_cross {A} (R : A -> A -> Prop) l1 l2 :
  StronglySorted R (l1 ++ l2) ->
  forall x y, x ∈ l1 -> y ∈ l2 -> R x y.
Proof.
  induction l1 as [|a l1 IH]; intros Hs x y Hx Hy.
  - by apply not_elem_of_nil in Hx.
  - apply StronglySorted_inv in Hs as [Hs Ha].
    apply elem_of_cons in Hx as [->|Hx]; [|by apply IH].
    rewrite Forall_forall in Ha. apply Ha, elem_of_app. by right.
Qed.

(** X16: when the ranking holds ten matches or more, the first listing
    prints its first ten entries, and these are the lowest scores: no match
    listed scores higher than a match left out. *)
Theorem first_listing_shows_lowest_scores self field_list general_type all c :
  GetEntityTypesFromFields upper self field_list general_type false = Ok all ->
  (10 <= length all)%nat ->
  print_first_matches colored str_of_match all c =
    (inr tt,
     Build_console (stdin c)
       (stdout c ++
        imap (fun i m => match_line colored str_of_match i m +:+ nl)
          (take 10 all))) /\
  forall m m', m ∈ take 10 all -> m' ∈ drop 10 all ->
    float_le (GetMatchScore m) (GetMatchScore m') = true.
Proof.
  intros Hall Hlen. split; [by apply print_first_matches_ok|].
  pose proof (GetEntityTypesFromFields_Ok_inv _ _ _ _ _ _ Hall) as Hex.
  destruct field_list as [|x l].
  - rewrite GetEntityTypesFromFields_empty in Hall by done.
    destruct (candidate_types _ _ _); [|done].
    injection Hall as <-. cbn in Hlen. lia.
  - rewrite GetEntityTypesFromFields_ok in Hall by done.
    injection Hall as <-. cbn zeta iota in *.
    apply (StronglySorted_app_cross
             (fun m1 m2 => float_le (GetMatchScore m1) (GetMatchScore m2) = true)).
    rewrite take_drop. by apply ranked_sorted.
Qed.

Lemma mapM_print {X} (text : X -> string) l c :
  mapM (fun x => print (text x)) l c =
    (inr (replicate (length l) tt),
     Build_console (stdin c) (stdout c ++ map (fun x => text x +:+ nl) l)).
Proof.
  revert c. induction l as [|x l IH]; intros c.
  - cbn. rewrite app_nil_r. by destruct c.
  - cbn [mapM]. unfold mbind at 1. unfold io_bind at 1. cbn [print write].
    unfold mbind at 1. unfold io_bind at 1. rewrite IH.
    cbn. by rewrite <- app_assoc.
Qed.

(** X17: the command-line field query reads a namespace and a type name,
    applies [str.upper] to both, whatever it does to them, and asks for all
    fields, optional ones included: when the wrapper answers, it prints a
    heading and one line per field; when the wrapper raises, nothing but
    the two prompts was written and the exception ends the function. *)
Theorem field_query_at_the_console ontology namespace_line type_line rest out :
  PrintFieldsForTypeName upper colored str_of_field ontology
    (Build_console (namespace_line :: type_line :: rest) out) =
  match GetFieldsForTypeName ontology (upper namespace_line)
          (upper type_line) false with
  | Ok fields =>
      (inr tt,
       Build_console rest
         (out ++
          ["Enter a namespace: ";
           "Enter a type name defined in " +:+ upper namespace_line +:+ ": ";
           (nl +:+ "Fields for " +:+ upper namespace_line +:+ "/"
               +:+ upper type_line +:+ ":") +:+ nl] ++
          map (fun field => colored (str_of_field field) "green" +:+ nl)
            fields))
  | Raise e =>
      (inl (Raised e),
       Build_console rest
         (out ++
          ["Enter a namespace: ";
           "Enter a type name defined in " +:+ upper namespace_line +:+ ": "]))
  end.
Proof.
  unfold PrintFieldsForTypeName.
  unfold mbind at 1. unfold io_bind at 1.
  unfold fmap at 1. unfold io_fmap at 1. cbn [input stdin stdout].
  unfold mbind at 1. unfold io_bind at 1.
  unfold fmap at 1. unfold io_fmap at 1. cbn [input stdin stdout].
  unfold mbind at 1. unfold io_bind at 1.
  destruct (GetFieldsForTypeName ontology _ _ false) as [fields|e];
    cbn [lift mret io_ret throw].
  - unfold mbind at 1. unfold io_bind at 1. cbn [print write stdin stdout].
    unfold mbind at 1. unfold io_bind at 1. rewrite mapM_print.
    cbn [stdin stdout]. rewrite <- !app_assoc. done.
  - by rewrite <- app_assoc.
Qed.

End listing_facts.

Lemma first_listing_wants_ten_matches_witness :
  (length [new_Match temperature_only ROOM float_half] < 10)%nat /\
  print_first_matches (fun text _ => text) plain_match
    [new_Match temperature_only ROOM float_half] (Build_console [] []) =
    (inl (KeyError 1), Build_console [] ["1. ROOM" +:+ nl]).
Proof.
  assert (length [new_Match temperature_only ROOM float_half] < 10)%nat as H
    by (cbn; lia).
  split; [exact H|].
  exact (proj1 (first_listing_wants_ten_matches (fun text _ => text) plain_match
                  [new_Match temperature_only ROOM float_half]
                  (Build_console [] [])) H).
Defined.

Lemma field_listing_ends_early_witness :
  (GetTypesForFieldList upper_ascii (fun _ => Ok 0) (fun _ => Ok false)
     (fun text _ => text) plain_match (fun _ => mret tt) room_wrapper
     (Build_console ["2"; "pressure, flow"] [])).1 =
    inl (Raised (ValueError "Concrete field set cannot be empty.")) /\
  (GetTypesForFieldList upper_ascii (fun _ => Ok 0) (fun _ => Ok false)
     (fun text _ => text) plain_match (fun _ => mret tt) room_wrapper
     (Build_console ["2"; "pressure, temperature"] [])).1 =
    inl (KeyError 3) /\
  exists e,
    (GetTypesForFieldList upper_ascii (fun _ => Ok 0) (fun _ => Ok false)
       (fun text _ => text) plain_match (fun _ => mret tt)
       (__init__ draft_universe)
       (Build_console ["2"; "pressure, temperature"] [])).1 =
      inl (Raised e).
Proof.
  split; [|split].
  - apply (proj1 (field_listing_ends_early upper_ascii (fun _ => Ok 0)
                    (fun _ => Ok false)
                    (fun text _ => text) plain_match (fun _ => mret tt)
                    room_wrapper "2" "pressure, flow" [] [] eq_refl));
      [reflexivity|reflexivity|done].
  - apply (proj1 (proj2 (field_listing_ends_early upper_ascii (fun _ => Ok 0)
                    (fun _ => Ok false)
                    (fun text _ => text) plain_match (fun _ => mret tt)
                    room_wrapper "2" "pressure, temperature" [] [] eq_refl)));
      [reflexivity|done|cbn; lia].
  - apply (proj2 (proj2 (field_listing_ends_early upper_ascii (fun _ => Ok 0)
                    (fun _ => Ok false)
                    (fun text _ => text) plain_match (fun _ => mret tt)
                    (__init__ draft_universe) "2" "pressure, temperature"
                    [] [] eq_refl))).
    reflexivity.
Defined.

Lemma first_listing_shows_lowest_scores_witness :
  exists all c,
    GetEntityTypesFromFields upper_ascii (__init__ eleven_types_universe)
      temperature_pressure None false = Ok all /\
    length all = 11%nat /\
    map GetMatchEntityType (drop 10 all) = [LOWER] /\
    print_first_matches (fun text _ => text) plain_match all
      (Build_console [] []) = (inr tt, c) /\
    length (stdout c) = 10%nat /\
    forall m m', m ∈ take 10 all -> m' ∈ drop 10 all ->
      float_le (GetMatchScore m) (GetMatchScore m') = true.
Proof.
  eexists. eexists.
  split; [vm_compute; reflexivity|]. split; [reflexivity|].
  split; [reflexivity|].
  assert (H := first_listing_shows_lowest_scores upper_ascii
                 (fun text _ => text) plain_match
                 (__init__ eleven_types_universe) temperature_pressure None
                 _ (Build_console [] [])
                 ltac:(vm_compute; reflexivity) ltac:(cbn; lia)).
  split; [exact (proj1 H)|]. split; [reflexivity|exact (proj2 H)].
Defined.
